(** * SwiftPost queue engine: token life cycle, numbering and ordering

    A shallow embedding of the service layer of the SwiftPost backend:
    [backend/src/services/QueueManager.ts], [CounterService.ts] and the
    token-creation handler of [backend/src/routes/tokens.ts], over the two
    tables of [prisma/migrations/.../migration.sql].

    Conventions of the embedding.
    - A [Date] is its [getTime()] value: milliseconds as a [Z].
    - A table is the list of its rows in insertion order ([SERIAL] ids grow
      along the list).
    - An [async] method is a function from the store to an outcome and a
      store ([Promise]); a rejected promise carries the thrown error.
    - Every call reads the clock once; that reading is the argument [now].
      Local midnight is computed for a zone at a constant offset [tz]. *)

From Stdlib Require Import List ZArith String Ascii Bool Arith Lia.
From Stdlib Require Import Permutation Sorted QArith Qminmax DecimalString DecimalNat.
Import ListNotations.

Local Open Scope string_scope.
Local Open Scope list_scope.
Local Open Scope Z_scope.

(** ** Data model ([types/index.ts], [migration.sql]) *)

Inductive TokenStatus := WAITING | SERVING | COMPLETED.
Inductive CounterStatus := ACTIVE | INACTIVE.

Definition TokenStatus_eqb (a b : TokenStatus) : bool :=
  match a, b with
  | WAITING, WAITING | SERVING, SERVING | COMPLETED, COMPLETED => true
  | _, _ => false
  end.

Module Token.
(** Row of table [tokens]. [serviceType] is a [TEXT] column. *)
Record t := mk {
    id : Z;
    tokenNumber : string;
    serviceType : string;
    status : TokenStatus;
    queuePosition : option Z;
    counterId : option Z;
    createdAt : Z;
    calledAt : option Z;
    completedAt : option Z
}.
End Token.

Module Counter.
(** Row of table [counters]. *)
Record t := mk {
    id : Z;
    number : Z;
    status : CounterStatus;
    createdAt : Z
}.
End Counter.

(** The store: both tables and the two [SERIAL] sequences. *)
Record Db := mkDb {
  tokens : list Token.t;
  counters : list Counter.t;
  nextTokenId : Z;
  nextCounterId : Z
}.

(** Extended token of API responses ([TokenWithDetails]); the ISO strings of
    the source are kept as the timestamps they print. *)
Record TokenWithDetails := mkDetails {
  d_tokenNumber : string;
  d_serviceType : string;
  d_status : TokenStatus;
  d_queuePosition : Z;
  d_estimatedWaitTime : Z;
  d_counter : option Z;
  d_createdAt : Z;
  d_calledAt : option Z;
  d_completedAt : option Z
}.

(** ** Promises over the store *)

(** What a rejected promise carries: an [Error] built by the services with
    its message, or one of the storage client's known request errors (record
    to update not found; foreign key [tokens_counterId_fkey]; unique index
    [tokens_tokenNumber_key]). *)
Inductive Error :=
| JsError (message : string)
| RecordNotFound
| ForeignKeyViolation
| UniqueViolation.

Inductive Outcome (A : Type) :=
| Resolved (a : A)
| Rejected (e : Error).
Arguments Resolved {A} a.
Arguments Rejected {A} e.

Definition Promise (A : Type) : Type := Db -> Outcome A * Db.

(** [return], [throw] and [await]. *)
Definition ret {A} (a : A) : Promise A := fun db => (Resolved a, db).
Definition throw {A} (e : Error) : Promise A := fun db => (Rejected e, db).
Definition bind {A B} (m : Promise A) (k : A -> Promise B) : Promise B :=
  fun db =>
    match m db with
    | (Resolved a, db') => k a db'
    | (Rejected e, db') => (Rejected e, db')
    end.

Notation "x <- m ;; k" := (bind m (fun x => k))
  (at level 61, m at next level, right associativity).
Notation "m ;;; k" := (bind m (fun _ => k))
  (at level 61, right associativity).

(** [prisma.$transaction]: a rejected body leaves the store as it was. *)
Definition transaction {A} (body : Promise A) : Promise A :=
  fun db =>
    match body db with
    | (Resolved a, db') => (Resolved a, db')
    | (Rejected e, _) => (Rejected e, db)
    end.

(** ** Storage client: the queries the services issue *)

Definition token_count (where_ : Token.t -> bool) : Promise nat :=
  fun db => (Resolved (List.length (filter where_ (tokens db))), db).

Definition token_findMany (where_ : Token.t -> bool) : Promise (list Token.t) :=
  fun db => (Resolved (filter where_ (tokens db)), db).

(** [where: { tokenNumber }] *)
Definition hasTokenNumber (code : string) (tk : Token.t) : bool :=
  String.eqb (Token.tokenNumber tk) code.

Definition token_findUnique (code : string) : Promise (option Token.t) :=
  fun db => (Resolved (find (hasTokenNumber code) (tokens db)), db).

(** [where: { id }] on counters *)
Definition hasCounterId (cid : Z) (c : Counter.t) : bool :=
  Z.eqb (Counter.id c) cid.

Definition counter_findUnique (cid : Z) : Promise (option Counter.t) :=
  fun db => (Resolved (find (hasCounterId cid) (counters db)), db).

(** The foreign key of [tokens.counterId]. *)
Definition fk_ok (cs : list Counter.t) (tk : Token.t) : bool :=
  match Token.counterId tk with
  | None => true
  | Some cid => existsb (hasCounterId cid) cs
  end.

(** [UPDATE ... SET f WHERE p]: every matching row is rewritten in place. *)
Definition updateWhere {A} (p : A -> bool) (f : A -> A) (l : list A) : list A :=
  map (fun x => if p x then f x else x) l.

(** [prisma.token.update({ where: { tokenNumber }, data })]: rejects when no
    row has the number, or when the new row breaks the foreign key. *)
Definition token_update (code : string) (data : Token.t -> Token.t)
  : Promise Token.t :=
  fun db =>
    match find (hasTokenNumber code) (tokens db) with
    | None => (Rejected RecordNotFound, db)
    | Some tk =>
        if fk_ok (counters db) (data tk) then
          (Resolved (data tk),
           mkDb (updateWhere (hasTokenNumber code) data (tokens db))
                (counters db) (nextTokenId db) (nextCounterId db))
        else (Rejected ForeignKeyViolation, db)
    end.

(** [prisma.counter.update({ where: { id }, data })]. *)
Definition counter_update (cid : Z) (data : Counter.t -> Counter.t)
  : Promise Counter.t :=
  fun db =>
    match find (hasCounterId cid) (counters db) with
    | None => (Rejected RecordNotFound, db)
    | Some c =>
        (Resolved (data c),
         mkDb (tokens db) (updateWhere (hasCounterId cid) data (counters db))
              (nextTokenId db) (nextCounterId db))
    end.

(** [prisma.token.create]: the columns not given take their defaults
    ([id] from the sequence, [createdAt] the current timestamp, the rest
    null); the unique index on [tokenNumber] is enforced. *)
Definition token_create (now : Z) (code st : string) (s : TokenStatus)
  (pos : option Z) : Promise Token.t :=
  fun db =>
    if existsb (hasTokenNumber code) (tokens db) then
      (Rejected UniqueViolation, db)
    else
      let tk := Token.mk (nextTokenId db) code st s pos None now None None in
      (Resolved tk,
       mkDb (tokens db ++ [tk]) (counters db)
            (nextTokenId db + 1) (nextCounterId db)).

(** ** QueueManager: the two transitions *)

(** [data: { status: SERVING, counterId, calledAt: new Date() }] *)
Definition setServing (cid now : Z) (tk : Token.t) : Token.t :=
  Token.mk (Token.id tk) (Token.tokenNumber tk) (Token.serviceType tk)
           SERVING (Token.queuePosition tk) (Some cid)
           (Token.createdAt tk) (Some now) (Token.completedAt tk).

(** [data: { status: COMPLETED, completedAt: new Date(), counterId: null }] *)
Definition setCompleted (now : Z) (tk : Token.t) : Token.t :=
  Token.mk (Token.id tk) (Token.tokenNumber tk) (Token.serviceType tk)
           COMPLETED (Token.queuePosition tk) None
           (Token.createdAt tk) (Token.calledAt tk) (Some now).

(** [QueueManager.assignTokenToCounter] *)
Definition assignTokenToCounter (now : Z) (tokenNumber : string) (counterId : Z)
  : Promise Token.t :=
  token_update tokenNumber (setServing counterId now).

(** [QueueManager.completeToken] *)
Definition completeToken (now : Z) (tokenNumber : string) : Promise Token.t :=
  token_update tokenNumber (setCompleted now).

(** ** CounterService *)

(** [where: { counterId, status: 'SERVING' }] *)
Definition isServingOn (cid : Z) (tk : Token.t) : bool :=
  match Token.counterId tk with
  | Some c => Z.eqb c cid && TokenStatus_eqb (Token.status tk) SERVING
  | None => false
  end.

(** The [tokens] relation of a counter, filtered to [SERVING]. *)
Definition servingTokens (cid : Z) (db : Db) : list Token.t :=
  filter (isServingOn cid) (tokens db).

(** [prisma.counter.findUnique({ where: { id }, include: { tokens: { where:
    { status: 'SERVING' } } } })]: the counter with its serving tokens. *)
Definition counter_findUnique_serving (cid : Z)
  : Promise (option (Counter.t * list Token.t)) :=
  fun db =>
    (Resolved
       (option_map (fun c => (c, servingTokens (Counter.id c) db))
                   (find (hasCounterId cid) (counters db))), db).

(** [CounterService.assignCounter] *)
Definition assignCounter (now : Z) (counterId : Z) (tokenNumber : string)
  : Promise unit :=
  counter <- counter_findUnique_serving counterId ;;
  match counter with
  | None => throw (JsError "Counter not found")
  | Some (c, serving) =>
      match Counter.status c with
      | INACTIVE => throw (JsError "Counter is inactive")
      | ACTIVE =>
          if (0 <? List.length serving)%nat then
            throw (JsError "Counter is already serving a token")
          else
            assignTokenToCounter now tokenNumber counterId ;;;
            ret tt
      end
  end.

(** [data: { status }] on a counter *)
Definition setStatus (s : CounterStatus) (c : Counter.t) : Counter.t :=
  Counter.mk (Counter.id c) (Counter.number c) s (Counter.createdAt c).

(** [CounterService.deactivateCounter] *)
Definition deactivateCounter (counterId : Z) : Promise Counter.t :=
  activeTokens <- token_count (isServingOn counterId) ;;
  if (0 <? activeTokens)%nat then
    throw (JsError "Cannot deactivate counter with active tokens")
  else
    counter_update counterId (setStatus INACTIVE).

(** ** QueueManager: numbering *)

(** The four categories ([ServiceType]; the route's [validServiceTypes]). *)
Definition validServiceTypes : list string :=
  ["Parcel Drop-off"; "Banking Services"; "General Inquiry";
   "Document Verification"].

Definition prefixMap : list (string * string) :=
  [("Parcel Drop-off", "P"); ("Banking Services", "B");
   ("General Inquiry", "G"); ("Document Verification", "D")].

Fixpoint lookup (k : string) (m : list (string * string)) : option string :=
  match m with
  | [] => None
  | (k', v) :: m' => if String.eqb k k' then Some v else lookup k m'
  end.


(** [QueueManager.getServicePrefix]: [prefixMap[serviceType] || 'G']. *)
Definition getServicePrefix (serviceType : string) : string :=
  match lookup serviceType prefixMap with
  | Some p => p
  | None => "G"
  end.

Fixpoint replicate (n : nat) (c : ascii) : string :=
  match n with
  | O => EmptyString
  | S n' => String c (replicate n' c)
  end.

(** [s.padStart(target, fill)] for a one-character [fill]. *)
Definition padStart (target : nat) (fill : ascii) (s : string) : string :=
  String.append (replicate (target - String.length s) fill) s.

(** [String(n)] for a count [n]. *)
Definition decimal (n : nat) : string :=
  NilEmpty.string_of_uint (Nat.to_uint n).

(** The template [`${prefix}-${String(tokenNum).padStart(3, '0')}`]. *)
Definition formatTokenNumber (prefix : string) (tokenNum : nat) : string :=
  String.append prefix (String.append "-" (padStart 3 "0" (decimal tokenNum))).

Definition msPerDay : Z := 86400000.

(** [new Date(); setHours(0, 0, 0, 0)] and [setHours(23, 59, 59, 999)] at a
    zone [tz] milliseconds ahead of UTC (taken constant). *)
Definition todayStart (tz now : Z) : Z := now - (now + tz) mod msPerDay.
Definition todayEnd (tz now : Z) : Z := todayStart tz now + (msPerDay - 1).

(** [where: { serviceType, createdAt: { gte: todayStart, lte: todayEnd } }] *)
Definition createdToday (tz now : Z) (st : string) (tk : Token.t) : bool :=
  String.eqb (Token.serviceType tk) st
  && (todayStart tz now <=? Token.createdAt tk)
  && (Token.createdAt tk <=? todayEnd tz now).

(** [where: { status: WAITING }] *)
Definition isWaiting (tk : Token.t) : bool :=
  TokenStatus_eqb (Token.status tk) WAITING.

(** [where: { status: WAITING, serviceType }] *)
Definition waitingOf (st : string) (tk : Token.t) : bool :=
  isWaiting tk && String.eqb (Token.serviceType tk) st.

Definition maxAttempts : nat := 10.

(** The [do ... while (attempts < maxAttempts)] loop; [fuel] is
    [maxAttempts - 1 - attempts], the iterations still allowed after this
    one. Returns [attempts] and the last candidate at loop exit. *)
Fixpoint numberLoop (prefix : string) (todayTokens fuel attempts : nat)
  : Promise (nat * string) :=
  let tokenNum := (todayTokens + attempts + 1)%nat in
  let tokenNumber := formatTokenNumber prefix tokenNum in
  existingToken <- token_findUnique tokenNumber ;;
  match existingToken with
  | None => ret (attempts, tokenNumber)
  | Some _ =>
      match fuel with
      | O => ret (S attempts, tokenNumber)
      | S fuel' => numberLoop prefix todayTokens fuel' (S attempts)
      end
  end.

(** ** QueueManager: wait-time estimate *)

Definition isSome {A} (o : option A) : bool :=
  match o with Some _ => true | None => false end.

(** [where: { status: COMPLETED, calledAt: { not: null }, completedAt:
    { not: null }, createdAt: { gte: yesterday } }] *)
Definition recentlyCompleted (yesterday : Z) (tk : Token.t) : bool :=
  TokenStatus_eqb (Token.status tk) COMPLETED
  && isSome (Token.calledAt tk)
  && isSome (Token.completedAt tk)
  && (yesterday <=? Token.createdAt tk).

(** The step of the [reduce] that totals the service times. *)
Definition addServiceTime (sum : Z) (tk : Token.t) : Z :=
  match Token.calledAt tk, Token.completedAt tk with
  | Some called, Some completed => sum + (completed - called)
  | _, _ => sum
  end.

(** [Math.round(num / den)] for integers, [den > 0]: the nearest integer,
    halves upwards. (The source divides in double precision; on sums of
    millisecond durations below 2^51 the result is the same.) *)
Definition mathRoundDiv (num den : Z) : Z := (2 * num + den) / (2 * den).

(** [averageServiceTime]: 5 by default, else the rounded mean in minutes,
    at least 2. *)
Definition averageServiceTime (completedTokens : list Token.t) : Z :=
  match completedTokens with
  | [] => 5
  | _ :: _ =>
      let totalServiceTime := fold_left addServiceTime completedTokens 0 in
      Z.max (mathRoundDiv totalServiceTime
               (Z.of_nat (List.length completedTokens) * 60000)) 2
  end.

(** [QueueManager.estimateWaitTime] *)
Definition estimateWaitTime (now : Z) (queuePosition : Z) : Promise Z :=
  let yesterday := now - 24 * 3600000 in
  completedTokens <- token_findMany (recentlyCompleted yesterday) ;;
  ret (Z.max 0 ((queuePosition - 1) * averageServiceTime completedTokens)).

(** [q || 1] on a nullable number. *)
Definition orOne (q : option Z) : Z :=
  match q with
  | None => 1
  | Some v => if v =? 0 then 1 else v
  end.

(** [QueueManager.generateToken] *)
Definition generateToken (tz now : Z) (serviceType : string)
  : Promise TokenWithDetails :=
  let prefix := getServicePrefix serviceType in
  result <- transaction (
    todayTokens <- token_count (createdToday tz now serviceType) ;;
    picked <- numberLoop prefix todayTokens (maxAttempts - 1) 0 ;;
    if (maxAttempts <=? fst picked)%nat then
      throw (JsError "Unable to generate unique token number")
    else
      waiting <- token_count (waitingOf serviceType) ;;
      let queuePosition := Z.of_nat waiting + 1 in
      token_create now (snd picked) serviceType WAITING (Some queuePosition)) ;;
  estimatedWaitTime <- estimateWaitTime now (orOne (Token.queuePosition result)) ;;
  ret (mkDetails (Token.tokenNumber result) (Token.serviceType result)
         (Token.status result) (orOne (Token.queuePosition result))
         estimatedWaitTime None (Token.createdAt result) None None).

(** ** QueueManager: reads *)

(** Insertion into a list ordered by [createdAt], before the first row
    that is not earlier. *)
Fixpoint insertByCreatedAt (tk : Token.t) (l : list Token.t) : list Token.t :=
  match l with
  | [] => [tk]
  | x :: l' =>
      if Token.createdAt tk <=? Token.createdAt x then tk :: x :: l'
      else x :: insertByCreatedAt tk l'
  end.

(** [orderBy: { createdAt: 'asc' }] applied to rows in the order given;
    rows with equal [createdAt] keep that order. *)
Definition orderByCreatedAt (rows : list Token.t) : list Token.t :=
  fold_right insertByCreatedAt [] rows.

Section NextToken.
  (** The order in which the storage engine hands rows to the sort; the
      query names [createdAt] as its only sort key. *)
  Variable scan : list Token.t -> list Token.t.

(** [QueueManager.getNextToken] *)
Definition getNextToken : Promise (option Token.t) :=
  fun db =>
    (Resolved (hd_error (orderByCreatedAt (filter isWaiting (scan (tokens db))))),
     db).
End NextToken.

(** [where: { status: WAITING, serviceType: token.serviceType, createdAt:
    { lt: token.createdAt } }] *)
Definition aheadOf (tk : Token.t) (other : Token.t) : bool :=
  isWaiting other
  && String.eqb (Token.serviceType other) (Token.serviceType tk)
  && (Token.createdAt other <? Token.createdAt tk).

(** [QueueManager.calculateQueuePosition] *)
Definition calculateQueuePosition (tokenNumber : string) : Promise Z :=
  token <- token_findUnique tokenNumber ;;
  match token with
  | None => ret 0
  | Some tk =>
      if negb (isWaiting tk) then ret 0
      else
        position <- token_count (aheadOf tk) ;;
        ret (Z.of_nat position + 1)
  end.

(** [token.counter?.number || null] *)
Definition counterNumberOf (db : Db) (tk : Token.t) : option Z :=
  match Token.counterId tk with
  | None => None
  | Some cid =>
      match find (hasCounterId cid) (counters db) with
      | None => None
      | Some c => if Counter.number c =? 0 then None else Some (Counter.number c)
      end
  end.

(** [QueueManager.getTokenDetails] *)
Definition getTokenDetails (now : Z) (tokenNumber : string)
  : Promise (option TokenWithDetails) :=
  token <- token_findUnique tokenNumber ;;
  match token with
  | None => ret None
  | Some tk =>
      live <- (if isWaiting tk then
                 currentPosition <- calculateQueuePosition tokenNumber ;;
                 estimatedWaitTime <- estimateWaitTime now currentPosition ;;
                 ret (currentPosition, estimatedWaitTime)
               else ret (0, 0)) ;;
      fun db =>
        (Resolved (Some (mkDetails (Token.tokenNumber tk) (Token.serviceType tk)
                           (Token.status tk) (fst live) (snd live)
                           (counterNumberOf db tk) (Token.createdAt tk)
                           (Token.calledAt tk) (Token.completedAt tk))), db)
  end.

(** ** Route [POST /api/tokens] *)

(** A value of a JSON request body. *)
Inductive JsValue :=
| JsUndefined
| JsNull
| JsBool (b : bool)
| JsNumber (z : Z)
| JsString (s : string)
| JsObject.

Definition falsy (v : JsValue) : bool :=
  match v with
  | JsUndefined | JsNull => true
  | JsBool b => negb b
  | JsNumber z => z =? 0
  | JsString s => String.eqb s ""
  | JsObject => false
  end.

(** [validServiceTypes.includes(v)] *)
Definition includesServiceType (v : JsValue) : option string :=
  match v with
  | JsString s => if existsb (String.eqb s) validServiceTypes then Some s else None
  | _ => None
  end.

Record TokenResponse := mkTokenResponse {
  r_tokenNumber : string;
  r_queuePosition : Z;
  r_estimatedWaitTime : Z;
  r_serviceType : string
}.

(** Status code with either the [data] or the [error] of the JSON reply. *)
Inductive HttpReply :=
| ReplyData (statusCode : Z) (data : TokenResponse)
| ReplyError (statusCode : Z) (error : string).

(** The handler of [router.post('/')], up to the reply; the socket
    broadcast between generation and reply is not modelled. *)
Definition postToken (tz now : Z) (serviceType : JsValue) (db : Db)
  : HttpReply * Db :=
  if falsy serviceType then (ReplyError 400 "Service type is required", db)
  else
    match includesServiceType serviceType with
    | None => (ReplyError 400 "Invalid service type", db)
    | Some st =>
        match generateToken tz now st db with
        | (Resolved d, db') =>
            (ReplyData 201
               (mkTokenResponse (d_tokenNumber d) (d_queuePosition d)
                  (d_estimatedWaitTime d) (d_serviceType d)), db')
        | (Rejected _, db') => (ReplyError 500 "Failed to generate token", db')
        end
    end.

(** * Vocabulary of the statements *)

(** What a successful [token.update] leaves in the table: the rows with
    the number are [data] of the old ones, the others are untouched. *)
Definition rowsRewritten (code : string) (data : Token.t -> Token.t)
  (before after : list Token.t) : Prop :=
  List.length after = List.length before
  /\ (forall tk', In tk' after -> hasTokenNumber code tk' = true ->
        exists tk, In tk before /\ hasTokenNumber code tk = true /\ tk' = data tk)
  /\ (forall tk', hasTokenNumber code tk' = false ->
        (In tk' after <-> In tk' before)).

(** No [INACTIVE] counter is referenced by a [SERVING] token. *)
Definition noInactiveServing (db : Db) : Prop :=
  forall c, In c (counters db) -> Counter.status c = INACTIVE ->
    servingTokens (Counter.id c) db = [].

(** Some token of the store holds the number [code]. *)
Definition taken (code : string) (db : Db) : Prop :=
  find (hasTokenNumber code) (tokens db) <> None.

(** The row a successful generation appends. *)
Definition newToken (db : Db) (now : Z) (code st : string) : Token.t :=
  Token.mk (nextTokenId db) code st WAITING
           (Some (Z.of_nat (List.length (filter (waitingOf st) (tokens db))) + 1))
           None now None None.

(** [todayTokens]: the tokens of the category created on the day of [now]. *)
Definition todayCount (tz now : Z) (st : string) (db : Db) : nat :=
  List.length (filter (createdToday tz now st) (tokens db)).

(** A non-null [counterId] only on a [SERVING] token, and none on a
    [COMPLETED] one. *)
Definition tokenInvariant (tk : Token.t) : Prop :=
  (Token.counterId tk <> None -> Token.status tk = SERVING)
  /\ (Token.status tk = COMPLETED -> Token.counterId tk = None).

(** One call of the service layer. *)
Inductive Call :=
| CallGenerateToken (tz now : Z) (serviceType : string)
| CallPostToken (tz now : Z) (serviceType : JsValue)
| CallAssignTokenToCounter (now : Z) (tokenNumber : string) (counterId : Z)
| CallAssignCounter (now : Z) (counterId : Z) (tokenNumber : string)
| CallCompleteToken (now : Z) (tokenNumber : string)
| CallDeactivateCounter (counterId : Z).

(** The store a call leaves, resolved or rejected. *)
Definition after (c : Call) (db : Db) : Db :=
  match c with
  | CallGenerateToken tz now st => snd (generateToken tz now st db)
  | CallPostToken tz now v => snd (postToken tz now v db)
  | CallAssignTokenToCounter now code cid =>
      snd (assignTokenToCounter now code cid db)
  | CallAssignCounter now cid code => snd (assignCounter now cid code db)
  | CallCompleteToken now code => snd (completeToken now code db)
  | CallDeactivateCounter cid => snd (deactivateCounter cid db)
  end.

(** The store after a sequence of calls, one after the other. *)
Definition runCalls (calls : list Call) (db : Db) : Db :=
  fold_left (fun d c => after c d) calls db.

(** A token with its stored [queuePosition] column replaced. *)
Definition withQueuePosition (q : option Z) (tk : Token.t) : Token.t :=
  Token.mk (Token.id tk) (Token.tokenNumber tk) (Token.serviceType tk)
           (Token.status tk) q (Token.counterId tk) (Token.createdAt tk)
           (Token.calledAt tk) (Token.completedAt tk).

(** The store with the [queuePosition] column of every row set by [g]. *)
Definition restorePositions (g : Token.t -> option Z) (db : Db) : Db :=
  mkDb (map (fun tk => withQueuePosition (g tk) tk) (tokens db))
       (counters db) (nextTokenId db) (nextCounterId db).

(** [completedAt - calledAt] in milliseconds, where both are set. *)
Definition serviceTime (tk : Token.t) : Z :=
  match Token.calledAt tk, Token.completedAt tk with
  | Some called, Some completed => completed - called
  | _, _ => 0
  end.

(** The sum of a list of integers. *)
Definition sumZ (l : list Z) : Z := fold_right Z.add 0 l.

(** The better of a row and the best of the rows after it. *)
Definition pickEarlier (tk : Token.t) (best : option Token.t) : option Token.t :=
  match best with
  | None => Some tk
  | Some x =>
      if Token.createdAt tk <=? Token.createdAt x then Some tk else Some x
  end.

(** Reading a decimal numeral back, leading zeros allowed (what
    [parseInt] does to the digits after the dash). *)
Definition parseDecimal (s : string) : option nat :=
  option_map Nat.of_uint (NilEmpty.uint_of_string s).

(** [n] calls in a row, at the clock readings [nows]. *)
Fixpoint generateTokens (tz : Z) (st : string) (nows : list Z) (db : Db)
  : list (Outcome TokenWithDetails) * Db :=
  match nows with
  | [] => ([], db)
  | now :: rest =>
      let (o, db') := generateToken tz now st db in
      let (os, db'') := generateTokens tz st rest db' in
      (o :: os, db'')
  end.

(** Created on the day that starts at [day]. *)
Definition onDay (day : Z) (tk : Token.t) : Prop :=
  day <= Token.createdAt tk <= day + (msPerDay - 1).

(** [createdToday] with the start of the day given. *)
Definition onDayOf (day : Z) (st : string) (tk : Token.t) : bool :=
  String.eqb (Token.serviceType tk) st
  && (day <=? Token.createdAt tk)
  && (Token.createdAt tk <=? day + (msPerDay - 1)).

(** ** The estimate as the specification words it *)

(** The estimate in the words of the specification: the exact mean, over
    the tokens completed in the last 24 hours. *)
Definition spec_inWindow (now : Z) (tk : Token.t) : bool :=
  TokenStatus_eqb (Token.status tk) COMPLETED
  && match Token.calledAt tk, Token.completedAt tk with
     | Some _, Some completed => now - 24 * 3600000 <=? completed
     | _, _ => false
     end.

Definition spec_avgServiceMinutes (now : Z) (db : Db) : Q :=
  match filter (spec_inWindow now) (tokens db) with
  | [] => inject_Z 5
  | l => Qmax (inject_Z (sumZ (map serviceTime l))
               / inject_Z (Z.of_nat (List.length l) * 60000))
              (inject_Z 2)
  end.

Definition spec_estimate (now : Z) (db : Db) (p : Z) : Q :=
  Qmax (inject_Z 0) ((inject_Z p - inject_Z 1) * spec_avgServiceMinutes now db).

(** ** Sample rows *)

(** Counter number 1, active; and the parcel token "P-001" at each stage
    of its life. *)
Definition counterOne : Counter.t := Counter.mk 1 1 ACTIVE 0.

Definition waitingParcel : Token.t :=
  Token.mk 1 "P-001" "Parcel Drop-off" WAITING (Some 1) None 0 None None.

Definition servingParcel : Token.t :=
  Token.mk 1 "P-001" "Parcel Drop-off" SERVING (Some 1) (Some 1) 0
           (Some 100) None.

Definition completedParcel : Token.t :=
  Token.mk 1 "P-001" "Parcel Drop-off" COMPLETED (Some 1) None 0
           (Some 100) (Some 200).

Definition laterParcel : Token.t :=
  Token.mk 2 "P-002" "Parcel Drop-off" WAITING (Some 2) None 50 None None.

Definition latestParcel : Token.t :=
  Token.mk 3 "P-003" "Parcel Drop-off" WAITING (Some 3) None 90 None None.

(** Served in two and a half minutes, a moment ago. *)
Definition quickParcel : Token.t :=
  Token.mk 1 "P-001" "Parcel Drop-off" COMPLETED (Some 1) None 0
           (Some 10000) (Some 160000).

(** Created 25 hours ago, called 70 minutes ago, completed an hour ago. *)
Definition slowParcel : Token.t :=
  Token.mk 1 "P-001" "Parcel Drop-off" COMPLETED (Some 1) None 0
           (Some 85800000) (Some 86400000).

(** Two [WAITING] tokens created in the same millisecond. *)
Definition firstInserted : Token.t :=
  Token.mk 1 "P-001" "Parcel Drop-off" WAITING (Some 1) None 1000 None None.
Definition secondInserted : Token.t :=
  Token.mk 2 "B-001" "Banking Services" WAITING (Some 1) None 1000 None None.

(** A completed parcel token numbered [k], created at time 1000. *)
Definition yesterdayParcel (k : nat) : Token.t :=
  Token.mk (Z.of_nat k) (formatTokenNumber "P" k) "Parcel Drop-off" COMPLETED
           (Some 1) None 1000 (Some 2000) (Some 3000).

(** * The rest of the counter service, and the statistics by service *)

(** ** Storage client: counters *)

(** [where: { number }] on counters *)
Definition hasNumber (n : Z) (c : Counter.t) : bool :=
  Z.eqb (Counter.number c) n.

Definition counter_findUnique_number (n : Z) : Promise (option Counter.t) :=
  fun db => (Resolved (find (hasNumber n) (counters db)), db).

(** [prisma.counter.create]: [id] from the sequence, [createdAt] the
    current timestamp; the unique index on [number] is enforced. *)
Definition counter_create (now number : Z) (s : CounterStatus)
  : Promise Counter.t :=
  fun db =>
    if existsb (hasNumber number) (counters db) then
      (Rejected UniqueViolation, db)
    else
      let c := Counter.mk (nextCounterId db) number s now in
      (Resolved c,
       mkDb (tokens db) (counters db ++ [c])
            (nextTokenId db) (nextCounterId db + 1)).

(** A token whose [counterId] is the counter [cid]. *)
Definition refersTo (cid : Z) (tk : Token.t) : bool :=
  match Token.counterId tk with
  | Some c => Z.eqb c cid
  | None => false
  end.

(** [ON DELETE SET NULL] of [tokens_counterId_fkey]. *)
Definition clearCounter (tk : Token.t) : Token.t :=
  Token.mk (Token.id tk) (Token.tokenNumber tk) (Token.serviceType tk)
           (Token.status tk) (Token.queuePosition tk) None
           (Token.createdAt tk) (Token.calledAt tk) (Token.completedAt tk).

(** [prisma.counter.delete({ where: { id } })] *)
Definition counter_delete (cid : Z) : Promise Counter.t :=
  fun db =>
    match find (hasCounterId cid) (counters db) with
    | None => (Rejected RecordNotFound, db)
    | Some c =>
        (Resolved c,
         mkDb (updateWhere (refersTo cid) clearCounter (tokens db))
              (filter (fun x => negb (hasCounterId cid x)) (counters db))
              (nextTokenId db) (nextCounterId db))
    end.

(** ** CounterService: availability and automatic assignment *)

(** [where: { status: ACTIVE, tokens: { none: { status: 'SERVING' } } }] *)
Definition isAvailable (db : Db) (c : Counter.t) : bool :=
  match Counter.status c, servingTokens (Counter.id c) db with
  | ACTIVE, [] => true
  | _, _ => false
  end.

(** Insertion into a list ordered by [number], before the first counter
    that is not lower. *)
Fixpoint insertByNumber (c : Counter.t) (l : list Counter.t) : list Counter.t :=
  match l with
  | [] => [c]
  | x :: l' =>
      if Counter.number c <=? Counter.number x then c :: x :: l'
      else x :: insertByNumber c l'
  end.

(** [orderBy: { number: 'asc' }]; [number] carries a unique index. *)
Definition orderByNumber (rows : list Counter.t) : list Counter.t :=
  fold_right insertByNumber [] rows.

(** [CounterService.getAvailableCounters] *)
Definition getAvailableCounters : Promise (list Counter.t) :=
  fun db =>
    (Resolved (orderByNumber (filter (isAvailable db) (counters db))), db).

(** [try { ... } catch (error) { return false; }] *)
Definition catchFalse (body : Promise bool) : Promise bool :=
  fun db =>
    match body db with
    | (Resolved b, db') => (Resolved b, db')
    | (Rejected _, db') => (Resolved false, db')
    end.

(** [if (counterId)] on an optional number: absent and 0 are falsy. *)
Definition givenCounter (counterId : option Z) : option Z :=
  match counterId with
  | Some cid => if cid =? 0 then None else Some cid
  | None => None
  end.

Section AutoAssign.
Variable scan : list Token.t -> list Token.t.

(** [CounterService.tryAssignWaitingToken] *)
Definition tryAssignWaitingToken (now : Z) (counterId : option Z)
  : Promise bool :=
  catchFalse (
    nextToken <- getNextToken scan ;;
    match nextToken with
    | None => ret false
    | Some tk =>
        availableCounter <-
          match givenCounter counterId with
          | Some cid =>
              counter <- counter_findUnique_serving cid ;;
              ret match counter with
                  | Some (c, serving) =>
                      match Counter.status c, serving with
                      | ACTIVE, [] => Some c
                      | _, _ => None
                      end
                  | None => None
                  end
          | None =>
              availableCounters <- getAvailableCounters ;;
              ret (hd_error availableCounters)
          end ;;
        match availableCounter with
        | None => ret false
        | Some c =>
            assignTokenToCounter now (Token.tokenNumber tk) (Counter.id c) ;;;
            ret true
        end
    end).

(** [String(number)] for an integer. *)
Definition showZ (z : Z) : string := NilZero.string_of_int (Z.to_int z).

Definition maxProbes : nat := 100.

(** The [while (attempts < maxAttempts)] loop of [addCounter]; [fuel] is
    [maxAttempts - attempts]. [None] when the loop runs out. *)
Fixpoint probeNumber (fuel : nat) (availableNumber : Z) : Promise (option Z) :=
  match fuel with
  | O => ret None
  | S fuel' =>
      existing <- counter_findUnique_number availableNumber ;;
      match existing with
      | None => ret (Some availableNumber)
      | Some _ => probeNumber fuel' (availableNumber + 1)
      end
  end.

(** [CounterService.addCounter]; [testEnv] is
    [process.env.NODE_ENV === 'test']. *)
Definition addCounter (testEnv : bool) (now number : Z) : Promise Counter.t :=
  existingCounter <- counter_findUnique_number number ;;
  chosen <-
    match existingCounter with
    | None => ret number
    | Some _ =>
        if testEnv then
          found <- probeNumber maxProbes number ;;
          match found with
          | Some n => ret n
          | None =>
              throw (JsError (String.append
                "Unable to find available counter number starting from "
                (showZ number)))
          end
        else
          throw (JsError (String.append "Counter "
                   (String.append (showZ number) " already exists")))
    end ;;
  counter <- counter_create now chosen ACTIVE ;;
  tryAssignWaitingToken now (Some (Counter.id counter)) ;;;
  ret counter.

(** [CounterService.activateCounter] *)
Definition activateCounter (now counterId : Z) : Promise Counter.t :=
  counter <- counter_update counterId (setStatus ACTIVE) ;;
  tryAssignWaitingToken now (Some counterId) ;;;
  ret counter.

(** [CounterService.updateCounterStatus] *)
Definition updateCounterStatus (now counterId : Z) (status : CounterStatus)
  : Promise Counter.t :=
  match status with
  | INACTIVE => deactivateCounter counterId
  | ACTIVE => activateCounter now counterId
  end.
End AutoAssign.

(** [CounterService.deleteCounter] *)
Definition deleteCounter (counterId : Z) : Promise unit :=
  activeTokens <- token_count (isServingOn counterId) ;;
  if (0 <? activeTokens)%nat then
    throw (JsError "Cannot delete counter with active tokens")
  else
    counter_delete counterId ;;; ret tt.

(** ** StatisticsService: counts by service type *)

(** One more row of the group [k]. *)
Fixpoint bump (k : string) (groups : list (string * nat))
  : list (string * nat) :=
  match groups with
  | [] => [(k, 1%nat)]
  | (k', n) :: rest =>
      if String.eqb k k' then (k', S n) :: rest else (k', n) :: bump k rest
  end.

(** [prisma.token.groupBy({ by: ['serviceType'], where, _count: { id } })]:
    one group for each service type that has a row, with its row count. *)
Definition token_groupByServiceType (where_ : Token.t -> bool)
  : Promise (list (string * nat)) :=
  fun db =>
    (Resolved (fold_left (fun g tk => bump (Token.serviceType tk) g)
                 (filter where_ (tokens db)) []), db).

(** [groups.find(s => s.serviceType === serviceType)?._count.id || 0] *)
Definition countOf (serviceType : string) (groups : list (string * nat)) : Z :=
  match find (fun g => String.eqb (fst g) serviceType) groups with
  | Some g => Z.of_nat (snd g)
  | None => 0
  end.

Record ServiceStats := mkServiceStats {
  s_serviceType : string;
  s_totalToday : Z;
  s_waiting : Z;
  s_serving : Z;
  s_completed : Z
}.

Definition sinceToday (tz now : Z) (tk : Token.t) : bool :=
  todayStart tz now <=? Token.createdAt tk.

Definition completedSinceToday (tz now : Z) (tk : Token.t) : bool :=
  TokenStatus_eqb (Token.status tk) COMPLETED && sinceToday tz now tk.

(** [StatisticsService.getServiceStatistics] *)
Definition getServiceStatistics (tz now : Z) : Promise (list ServiceStats) :=
  serviceStats <- token_groupByServiceType (sinceToday tz now) ;;
  waitingByService <- token_groupByServiceType isWaiting ;;
  completedByService <- token_groupByServiceType (completedSinceToday tz now) ;;
  ret (map (fun serviceType =>
              let total := countOf serviceType serviceStats in
              let waiting := countOf serviceType waitingByService in
              let completed := countOf serviceType completedByService in
              let serving := total - waiting - completed in
              mkServiceStats serviceType total waiting (Z.max 0 serving) completed)
           validServiceTypes).

(** ** Every call of the service layer *)

Inductive Request :=
| ReqGenerateToken (tz now : Z) (serviceType : string)
| ReqAssignTokenToCounter (now : Z) (tokenNumber : string) (counterId : Z)
| ReqAssignCounter (now : Z) (counterId : Z) (tokenNumber : string)
| ReqCompleteToken (now : Z) (tokenNumber : string)
| ReqTryAssign (now : Z) (counterId : option Z)
| ReqAddCounter (testEnv : bool) (now number : Z)
| ReqActivateCounter (now counterId : Z)
| ReqDeactivateCounter (counterId : Z)
| ReqDeleteCounter (counterId : Z).

(** The store a request leaves, resolved or rejected, with the engine
    reading tokens in the order [scan]. *)
Definition serve (scan : list Token.t -> list Token.t) (r : Request) (db : Db)
  : Db :=
  match r with
  | ReqGenerateToken tz now st => snd (generateToken tz now st db)
  | ReqAssignTokenToCounter now code cid =>
      snd (assignTokenToCounter now code cid db)
  | ReqAssignCounter now cid code => snd (assignCounter now cid code db)
  | ReqCompleteToken now code => snd (completeToken now code db)
  | ReqTryAssign now cid => snd (tryAssignWaitingToken scan now cid db)
  | ReqAddCounter testEnv now number =>
      snd (addCounter scan testEnv now number db)
  | ReqActivateCounter now cid => snd (activateCounter scan now cid db)
  | ReqDeactivateCounter cid => snd (deactivateCounter cid db)
  | ReqDeleteCounter cid => snd (deleteCounter cid db)
  end.

Definition serveAll (scan : list Token.t -> list Token.t)
  (rs : list Request) (db : Db) : Db :=
  fold_left (fun d r => serve scan r d) rs db.

(** Every request but the bare update of [QueueManager]: assignments go
    through the checks of the counter service. *)
Definition guarded (r : Request) : bool :=
  match r with
  | ReqAssignTokenToCounter _ _ _ => false
  | _ => true
  end.

(** The constraints of the schema: the unique indexes on [tokenNumber]
    and on [number], the primary key of counters with its sequence ahead
    of every id, and the foreign key of [tokens.counterId]. *)
Definition schemaHolds (db : Db) : Prop :=
  NoDup (map Token.tokenNumber (tokens db))
  /\ NoDup (map Counter.id (counters db))
  /\ NoDup (map Counter.number (counters db))
  /\ (forall c, In c (counters db) -> Counter.id c < nextCounterId db)
  /\ (forall tk, In tk (tokens db) -> fk_ok (counters db) tk = true).

(** No counter has two [SERVING] tokens. *)
Definition oneTokenPerCounter (db : Db) : Prop :=
  forall cid, (List.length (servingTokens cid db) <= 1)%nat.

(** ** Vocabulary of the further statements *)

(** Ascending counter numbers. *)
Definition byNumber (a b : Counter.t) : Prop :=
  Counter.number a <= Counter.number b.

(** The counter [tryAssignWaitingToken] settles on: the one given, if it
    is available, else the first of the available ones. *)
Definition chooseCounter (counterId : option Z) (db : Db) : option Counter.t :=
  match givenCounter counterId with
  | Some cid =>
      match find (hasCounterId cid) (counters db) with
      | Some c => if isAvailable db c then Some c else None
      | None => None
      end
  | None => hd_error (orderByNumber (filter (isAvailable db) (counters db)))
  end.

(** Some counter of the store has the number [n]. *)
Definition numberTaken (n : Z) (db : Db) : Prop :=
  exists c, In c (counters db) /\ Counter.number c = n.

(** The end of [addCounter], once the number is chosen. *)
Definition finishAdd (scan : list Token.t -> list Token.t) (now chosen : Z)
  : Promise Counter.t :=
  counter <- counter_create now chosen ACTIVE ;;
  tryAssignWaitingToken scan now (Some (Counter.id counter)) ;;;
  ret counter.

(** The schema, no [SERVING] token on an [INACTIVE] counter, and at most
    one [SERVING] token per counter. *)
Definition counterDiscipline (db : Db) : Prop :=
  schemaHolds db /\ noInactiveServing db /\ oneTokenPerCounter db.

(** The tokens of the store that satisfy [p], counted. *)
Definition countTokens (p : Token.t -> bool) (db : Db) : Z :=
  Z.of_nat (List.length (filter p (tokens db))).

(** [tk] is of category [st]. *)
Definition ofType (st : string) (tk : Token.t) : bool :=
  String.eqb (Token.serviceType tk) st.

(** [tk] has status [s]. *)
Definition hasStatus (s : TokenStatus) (tk : Token.t) : bool :=
  TokenStatus_eqb (Token.status tk) s.

(** * Properties *)

(** ** Rows and updates *)

Lemma TokenStatus_eqb_eq a b : TokenStatus_eqb a b = true <-> a = b.
Proof. destruct a, b; simpl; split; congruence. Qed.

Lemma TokenStatus_eqb_neq a b : TokenStatus_eqb a b = false <-> a <> b.
Proof. destruct a, b; simpl; split; congruence. Qed.

Lemma find_hasCounterId cid l c :
  find (hasCounterId cid) l = Some c -> In c l /\ Counter.id c = cid.
Proof.
  intros H. apply find_some in H. destruct H as [Hin Heq].
  split; [assumption|]. now apply Z.eqb_eq.
Qed.

Lemma find_none_iff {A} (p : A -> bool) l :
  find p l = None <-> forall x, In x l -> p x = false.
Proof.
  split.
  - intros H x Hx. exact (find_none p l H x Hx).
  - induction l as [|a l IH]; simpl; intros H; [reflexivity|].
    rewrite (H a (or_introl eq_refl)). apply IH. intros x Hx. apply H. now right.
Qed.

Section UpdateWhere.
  Context {A : Type} (p : A -> bool) (f : A -> A).
  Hypothesis key_kept : forall x, p (f x) = p x.

Lemma updateWhere_length l : List.length (updateWhere p f l) = List.length l.
Proof. apply length_map. Qed.

Lemma In_updateWhere_hit l y :
  In y (updateWhere p f l) -> p y = true ->
  exists x, In x l /\ p x = true /\ y = f x.
Proof.
  unfold updateWhere. rewrite in_map_iff. intros [x [Hy Hx]] Hp.
  destruct (p x) eqn:E.
  - exists x. auto.
  - subst y. congruence.
Qed.

Lemma In_updateWhere_miss l y :
  p y = false -> (In y (updateWhere p f l) <-> In y l).
Proof.
  intros Hp. unfold updateWhere. rewrite in_map_iff. split.
  - intros [x [Hy Hx]]. destruct (p x) eqn:E.
    + subst y. rewrite key_kept in Hp. congruence.
    + now subst y.
  - intros Hy. exists y. now rewrite Hp.
Qed.

Lemma find_updateWhere l :
  find p (updateWhere p f l) = option_map f (find p l).
Proof.
  induction l as [|a l IH]; simpl; [reflexivity|].
  destruct (p a) eqn:E.
  - now rewrite key_kept, E.
  - now rewrite E.
Qed.
End UpdateWhere.

Lemma setServing_key code cid now tk :
  hasTokenNumber code (setServing cid now tk) = hasTokenNumber code tk.
Proof. reflexivity. Qed.

Lemma setCompleted_key code now tk :
  hasTokenNumber code (setCompleted now tk) = hasTokenNumber code tk.
Proof. reflexivity. Qed.

Lemma setStatus_key cid s c :
  hasCounterId cid (setStatus s c) = hasCounterId cid c.
Proof. reflexivity. Qed.

Lemma updateWhere_rowsRewritten code data l :
  (forall x, hasTokenNumber code (data x) = hasTokenNumber code x) ->
  rowsRewritten code data l (updateWhere (hasTokenNumber code) data l).
Proof.
  intros K. repeat split.
  - apply updateWhere_length.
  - intros tk' Hin Hp. now apply In_updateWhere_hit.
  - now apply In_updateWhere_miss.
  - now apply In_updateWhere_miss.
Qed.

(** ** Completion (C2) *)

Lemma completeToken_cases now code db :
  completeToken now code db =
  match find (hasTokenNumber code) (tokens db) with
  | None => (Rejected RecordNotFound, db)
  | Some tk =>
      (Resolved (setCompleted now tk),
       mkDb (updateWhere (hasTokenNumber code) (setCompleted now) (tokens db))
            (counters db) (nextTokenId db) (nextCounterId db))
  end.
Proof.
  unfold completeToken, token_update.
  destruct (find (hasTokenNumber code) (tokens db)); reflexivity.
Qed.

(** C2, as the code has it: [completeToken] looks only at whether a token
    with the code exists, never at its state. An unknown code is rejected
    (record not found) and the store is left as it was. For an existing
    token in any state, [WAITING] and [COMPLETED] included, the call
    resolves with the token set to [COMPLETED], [completedAt = now] and
    [counterId = null], its other fields kept; the row of the table is
    rewritten the same way; other rows and the counters are untouched. *)
Theorem completeToken_any_state (now : Z) (code : string) (db : Db) :
  (find (hasTokenNumber code) (tokens db) = None ->
     completeToken now code db = (Rejected RecordNotFound, db))
  /\ (forall tk, find (hasTokenNumber code) (tokens db) = Some tk ->
        exists tk' db',
          completeToken now code db = (Resolved tk', db')
          /\ Token.status tk' = COMPLETED
          /\ Token.completedAt tk' = Some now
          /\ Token.counterId tk' = None
          /\ tk' = setCompleted now tk
          /\ find (hasTokenNumber code) (tokens db') = Some tk'
          /\ rowsRewritten code (setCompleted now) (tokens db) (tokens db')
          /\ counters db' = counters db)
  /\ (forall tk' db', completeToken now code db = (Resolved tk', db') ->
        exists tk, find (hasTokenNumber code) (tokens db) = Some tk).
Proof.
  rewrite completeToken_cases. split; [|split].
  - now intros ->.
  - intros tk Hf. rewrite Hf. eexists _, _. split; [reflexivity|].
    simpl. repeat (split; [reflexivity|]). split; [|split; [|reflexivity]].
    + rewrite find_updateWhere by (intros x; apply setCompleted_key).
      now rewrite Hf.
    + apply updateWhere_rowsRewritten. intros x. apply setCompleted_key.
  - intros tk' db'. destruct (find (hasTokenNumber code) (tokens db)) as [tk|].
    + intros _. now exists tk.
    + discriminate.
Qed.

Lemma completeToken_any_state_witness :
  exists tk' db',
    completeToken 900 "P-001" (mkDb [completedParcel] [] 2 1) = (Resolved tk', db')
    /\ Token.status tk' = COMPLETED.
Proof.
  destruct (proj1 (proj2 (completeToken_any_state 900 "P-001"
                            (mkDb [completedParcel] [] 2 1)))
              completedParcel eq_refl)
    as [tk' [db' [H [Hs _]]]].
  exists tk', db'. split; assumption.
Defined.

(** Completing an already [COMPLETED] token is not rejected: it resolves
    and moves [completedAt] from 200 to 900. *)
Lemma completeToken_completed_again :
  Token.status completedParcel = COMPLETED
  /\ exists tk' db',
       completeToken 900 "P-001" (mkDb [completedParcel] [] 2 1)
       = (Resolved tk', db')
       /\ Token.completedAt tk' = Some 900
       /\ tokens db' <> [completedParcel].
Proof.
  split; [reflexivity|]. eexists _, _. split; [reflexivity|].
  split; [reflexivity|]. discriminate.
Qed.

(** ** Assignment (C1) *)

Lemma assignTokenToCounter_cases now code cid db :
  assignTokenToCounter now code cid db =
  match find (hasTokenNumber code) (tokens db) with
  | None => (Rejected RecordNotFound, db)
  | Some tk =>
      if existsb (hasCounterId cid) (counters db) then
        (Resolved (setServing cid now tk),
         mkDb (updateWhere (hasTokenNumber code) (setServing cid now) (tokens db))
              (counters db) (nextTokenId db) (nextCounterId db))
      else (Rejected ForeignKeyViolation, db)
  end.
Proof. reflexivity. Qed.

Lemma find_existsb {A} (p : A -> bool) l x :
  find p l = Some x -> existsb p l = true.
Proof.
  intros H. apply find_some in H. apply existsb_exists. now exists x.
Qed.

Lemma assignCounter_cases now cid code db :
  assignCounter now cid code db =
  match find (hasCounterId cid) (counters db) with
  | None => (Rejected (JsError "Counter not found"), db)
  | Some c =>
      match Counter.status c with
      | INACTIVE => (Rejected (JsError "Counter is inactive"), db)
      | ACTIVE =>
          match servingTokens cid db with
          | _ :: _ => (Rejected (JsError "Counter is already serving a token"), db)
          | [] =>
              match find (hasTokenNumber code) (tokens db) with
              | None => (Rejected RecordNotFound, db)
              | Some tk =>
                  (Resolved tt,
                   mkDb (updateWhere (hasTokenNumber code) (setServing cid now)
                           (tokens db))
                        (counters db) (nextTokenId db) (nextCounterId db))
              end
          end
      end
  end.
Proof.
  unfold assignCounter, bind, counter_findUnique_serving, throw, ret.
  destruct (find (hasCounterId cid) (counters db)) as [c|] eqn:Hc; simpl;
    [|reflexivity].
  destruct (find_hasCounterId _ _ _ Hc) as [_ Hid]. rewrite Hid.
  destruct (Counter.status c); [|reflexivity].
  destruct (servingTokens cid db) as [|s ss]; simpl; [|reflexivity].
  rewrite assignTokenToCounter_cases.
  destruct (find (hasTokenNumber code) (tokens db)); [|reflexivity].
  now rewrite (find_existsb _ _ _ Hc).
Qed.

Lemma setServing_rows code cid now before after :
  rowsRewritten code (setServing cid now) before after ->
  forall tk', In tk' after -> hasTokenNumber code tk' = true ->
    Token.status tk' = SERVING
    /\ Token.counterId tk' = Some cid
    /\ Token.calledAt tk' = Some now.
Proof.
  intros [_ [Hhit _]] tk' Hin Hp.
  destruct (Hhit tk' Hin Hp) as [tk [_ [_ ->]]]. now repeat split.
Qed.

(** C1, as the code has it. [CounterService.assignCounter] resolves exactly
    when the counter exists, is [ACTIVE], has no [SERVING] token, and a
    token with the code exists; the state of that token is not looked at.
    When it resolves, the token's row gets [status = SERVING],
    [counterId] the counter and [calledAt = now], and nothing else in the
    store changes. When it rejects, the store is unchanged and the error
    is, in this order of checks: "Counter not found", "Counter is
    inactive", "Counter is already serving a token", or the storage
    client's record-not-found for an unknown token. The update itself,
    [QueueManager.assignTokenToCounter], checks only that the token and
    the counter rows exist. *)
Theorem assignCounter_ignores_token_state
  (now cid : Z) (code : string) (db : Db) :
  ((exists db', assignCounter now cid code db = (Resolved tt, db')) <->
     (exists c, find (hasCounterId cid) (counters db) = Some c
                /\ Counter.status c = ACTIVE)
     /\ servingTokens cid db = []
     /\ (exists tk, find (hasTokenNumber code) (tokens db) = Some tk))
  /\ (forall u db', assignCounter now cid code db = (Resolved u, db') ->
        rowsRewritten code (setServing cid now) (tokens db) (tokens db')
        /\ (forall tk', In tk' (tokens db') -> hasTokenNumber code tk' = true ->
              Token.status tk' = SERVING
              /\ Token.counterId tk' = Some cid
              /\ Token.calledAt tk' = Some now)
        /\ counters db' = counters db)
  /\ (forall e db', assignCounter now cid code db = (Rejected e, db') ->
        db' = db
        /\ e = match find (hasCounterId cid) (counters db) with
               | None => JsError "Counter not found"
               | Some c =>
                   match Counter.status c, servingTokens cid db with
                   | INACTIVE, _ => JsError "Counter is inactive"
                   | ACTIVE, _ :: _ => JsError "Counter is already serving a token"
                   | ACTIVE, [] => RecordNotFound
                   end
               end)
  /\ assignTokenToCounter now code cid db =
     match find (hasTokenNumber code) (tokens db) with
     | None => (Rejected RecordNotFound, db)
     | Some tk =>
         if existsb (hasCounterId cid) (counters db) then
           (Resolved (setServing cid now tk),
            mkDb (updateWhere (hasTokenNumber code) (setServing cid now) (tokens db))
                 (counters db) (nextTokenId db) (nextCounterId db))
         else (Rejected ForeignKeyViolation, db)
     end.
Proof.
  rewrite assignCounter_cases.
  split; [|split; [|split; [|reflexivity]]].
  - split.
    + intros [db' H].
      destruct (find (hasCounterId cid) (counters db)) as [c|]; [|discriminate].
      destruct (Counter.status c) eqn:Hs; [|discriminate].
      destruct (servingTokens cid db); [|discriminate].
      destruct (find (hasTokenNumber code) (tokens db)) as [tk|]; [|discriminate].
      repeat split; eauto.
    + intros [[c [-> Hs]] [-> [tk ->]]]. rewrite Hs. eauto.
  - intros u db' H.
    destruct (find (hasCounterId cid) (counters db)) as [c|]; [|discriminate].
    destruct (Counter.status c); [|discriminate].
    destruct (servingTokens cid db); [|discriminate].
    destruct (find (hasTokenNumber code) (tokens db)) as [tk|]; [|discriminate].
    injection H as _ <-. simpl.
    assert (R : rowsRewritten code (setServing cid now) (tokens db)
                  (updateWhere (hasTokenNumber code) (setServing cid now)
                     (tokens db))).
    { apply updateWhere_rowsRewritten. intros x. apply setServing_key. }
    split; [exact R|]. split; [|reflexivity].
    exact (setServing_rows _ _ _ _ _ R).
  - intros e db' H.
    destruct (find (hasCounterId cid) (counters db)) as [c|];
      [|injection H as <- <-; now split].
    destruct (Counter.status c); [|injection H as <- <-; now split].
    destruct (servingTokens cid db); [|injection H as <- <-; now split].
    destruct (find (hasTokenNumber code) (tokens db)) as [tk|];
      [discriminate|injection H as <- <-; now split].
Qed.

Lemma assignCounter_ignores_token_state_witness :
  exists db',
    assignCounter 500 1 "P-001" (mkDb [waitingParcel] [counterOne] 2 2)
    = (Resolved tt, db').
Proof.
  apply (proj2 (proj1 (assignCounter_ignores_token_state 500 1 "P-001"
                         (mkDb [waitingParcel] [counterOne] 2 2)))).
  split; [exists counterOne; split; reflexivity|].
  split; [reflexivity|exists waitingParcel; reflexivity].
Defined.

(** A [COMPLETED] token is assigned again: with counter 1 active and idle
    the call resolves and the token is back in [SERVING]. The update of
    [QueueManager] alone does the same to a token that is [SERVING]
    already, on a counter that is busy with it. *)
Lemma assignCounter_completed_token :
  Token.status completedParcel <> WAITING
  /\ (exists db',
        assignCounter 900 1 "P-001" (mkDb [completedParcel] [counterOne] 2 2)
        = (Resolved tt, db')
        /\ tokens db' = [setServing 1 900 completedParcel])
  /\ (exists tk' db',
        assignTokenToCounter 950 "P-001" 1
          (mkDb [setServing 1 900 completedParcel] [counterOne] 2 2)
        = (Resolved tk', db')
        /\ Token.status tk' = SERVING).
Proof.
  split; [discriminate|]. split.
  - eexists. split; reflexivity.
  - eexists _, _. split; reflexivity.
Qed.

(** ** Deactivation (C8) *)

Lemma deactivateCounter_cases cid db :
  deactivateCounter cid db =
  match servingTokens cid db with
  | _ :: _ =>
      (Rejected (JsError "Cannot deactivate counter with active tokens"), db)
  | [] =>
      match find (hasCounterId cid) (counters db) with
      | None => (Rejected RecordNotFound, db)
      | Some c =>
          (Resolved (setStatus INACTIVE c),
           mkDb (tokens db)
                (updateWhere (hasCounterId cid) (setStatus INACTIVE) (counters db))
                (nextTokenId db) (nextCounterId db))
      end
  end.
Proof.
  unfold deactivateCounter, bind, token_count, throw, counter_update, servingTokens.
  destruct (filter (isServingOn cid) (tokens db)); reflexivity.
Qed.



(** ** Token generation: the number loop and the transaction *)

(** The loop reads only. It stops at the first free candidate among
    [attempts .. attempts + fuel], or runs out with all of them taken. *)
Lemma numberLoop_spec prefix n fuel :
  forall attempts db,
  exists r,
    numberLoop prefix n fuel attempts db = (Resolved r, db)
    /\ ((~ taken (snd r) db
         /\ (attempts <= fst r <= attempts + fuel)%nat
         /\ snd r = formatTokenNumber prefix (n + fst r + 1)
         /\ forall k, (attempts <= k < fst r)%nat ->
              taken (formatTokenNumber prefix (n + k + 1)) db)
        \/ (fst r = S (attempts + fuel)
            /\ forall k, (attempts <= k <= attempts + fuel)%nat ->
                 taken (formatTokenNumber prefix (n + k + 1)) db)).
Proof.
  induction fuel as [|fuel IH]; intros attempts db; simpl;
    unfold bind, token_findUnique, ret;
    destruct (find (hasTokenNumber (formatTokenNumber prefix (n + attempts + 1)))
                (tokens db)) eqn:Hf.
  - eexists. split; [reflexivity|]. right. simpl. split; [lia|].
    intros k Hk. assert (k = attempts) by lia. subst k.
    unfold taken. now rewrite Hf.
  - eexists. split; [reflexivity|]. left. simpl.
    split; [unfold taken; now rewrite Hf|].
    split; [lia|]. split; [reflexivity|]. intros k Hk. lia.
  - destruct (IH (S attempts) db) as [r [Hr Hcases]].
    exists r. split; [exact Hr|].
    assert (Hhere : taken (formatTokenNumber prefix (n + attempts + 1)) db)
      by (unfold taken; now rewrite Hf).
    destruct Hcases as [[Hfree [Hb [Hc Hbelow]]]|[Hlast Hall]].
    + left. split; [exact Hfree|]. split; [lia|]. split; [exact Hc|].
      intros k Hk. destruct (Nat.eq_dec k attempts) as [->|Hne];
        [exact Hhere|apply Hbelow; lia].
    + right. split; [lia|].
      intros k Hk. destruct (Nat.eq_dec k attempts) as [->|Hne];
        [exact Hhere|apply Hall; lia].
  - eexists. split; [reflexivity|]. left. simpl.
    split; [unfold taken; now rewrite Hf|].
    split; [lia|]. split; [reflexivity|]. intros k Hk. lia.
Qed.

Lemma not_taken_existsb code db :
  ~ taken code db -> existsb (hasTokenNumber code) (tokens db) = false.
Proof.
  intros H. destruct (existsb (hasTokenNumber code) (tokens db)) eqn:E;
    [|reflexivity].
  exfalso. apply H. apply existsb_exists in E. destruct E as [x [Hin Hp]].
  unfold taken. intros Hnone. rewrite find_none_iff in Hnone.
  rewrite (Hnone x Hin) in Hp. discriminate.
Qed.

Lemma estimateWaitTime_readonly now q db :
  estimateWaitTime now q db =
  (Resolved (Z.max 0 ((q - 1) * averageServiceTime
                        (filter (recentlyCompleted (now - 24 * 3600000))
                           (tokens db)))), db).
Proof. reflexivity. Qed.

Lemma generateToken_unfold tz now st db r :
  numberLoop (getServicePrefix st) (todayCount tz now st db)
    (maxAttempts - 1) 0 db = (Resolved r, db) ->
  generateToken tz now st db =
  if (maxAttempts <=? fst r)%nat then
    (Rejected (JsError "Unable to generate unique token number"), db)
  else if existsb (hasTokenNumber (snd r)) (tokens db) then
    (Rejected UniqueViolation, db)
  else
    let tk := newToken db now (snd r) st in
    let db' := mkDb (tokens db ++ [tk]) (counters db)
                    (nextTokenId db + 1) (nextCounterId db) in
    (Resolved
       (mkDetails (snd r) st WAITING (orOne (Token.queuePosition tk))
          (Z.max 0 ((orOne (Token.queuePosition tk) - 1)
                    * averageServiceTime
                        (filter (recentlyCompleted (now - 24 * 3600000))
                           (tokens db'))))
          None now None None), db').
Proof.
  intros Hr.
  unfold generateToken, bind at 1, transaction, bind at 1, token_count.
  fold (todayCount tz now st db). unfold bind at 1. rewrite Hr.
  destruct (maxAttempts <=? fst r)%nat; [reflexivity|].
  unfold bind, token_create. simpl.
  destruct (existsb (hasTokenNumber (snd r)) (tokens db)); reflexivity.
Qed.

(** [generateToken] either appends one [WAITING] row whose number is the
    first free candidate among the ten starting after today's count, or,
    with all ten taken, rejects and leaves the store as it was. *)
Lemma generateToken_outcome tz now st db :
  let n := todayCount tz now st db in
  let prefix := getServicePrefix st in
  (exists j d,
      (j < maxAttempts)%nat
      /\ ~ taken (formatTokenNumber prefix (n + j + 1)) db
      /\ (forall k, (k < j)%nat -> taken (formatTokenNumber prefix (n + k + 1)) db)
      /\ generateToken tz now st db =
         (Resolved d,
          mkDb (tokens db ++ [newToken db now (formatTokenNumber prefix (n + j + 1)) st])
               (counters db) (nextTokenId db + 1) (nextCounterId db))
      /\ d_tokenNumber d = formatTokenNumber prefix (n + j + 1)
      /\ d_serviceType d = st
      /\ d_status d = WAITING
      /\ d_counter d = None)
  \/ ((forall k, (k < maxAttempts)%nat ->
         taken (formatTokenNumber prefix (n + k + 1)) db)
      /\ generateToken tz now st db =
         (Rejected (JsError "Unable to generate unique token number"), db)).
Proof.
  intros n prefix.
  destruct (numberLoop_spec prefix n (maxAttempts - 1) 0 db) as [r [Hr Hcases]].
  rewrite (generateToken_unfold tz now st db r Hr).
  destruct Hcases as [[Hfree [Hb [Hc Hbelow]]]|[Hlast Hall]].
  - left. exists (fst r). simpl in Hb.
    assert (Hlt : (fst r < maxAttempts)%nat) by (unfold maxAttempts; lia).
    assert (Hleb : (maxAttempts <=? fst r)%nat = false)
      by (apply Nat.leb_gt; exact Hlt).
    rewrite Hleb, (not_taken_existsb _ _ Hfree). rewrite Hc in *.
    eexists. split; [exact Hlt|]. split; [exact Hfree|].
    split; [intros k Hk; apply Hbelow; lia|].
    split; [reflexivity|]. now repeat split.
  - right. simpl in Hlast, Hall.
    assert (Hleb : (maxAttempts <=? fst r)%nat = true)
      by (apply Nat.leb_le; unfold maxAttempts; lia).
    rewrite Hleb. split; [|reflexivity].
    intros k Hk. apply Hall. unfold maxAttempts in Hk. lia.
Qed.

(** ** The invariants of a token (C7) *)

Lemma generateToken_keeps tz now st db :
  Forall tokenInvariant (tokens db) ->
  Forall tokenInvariant (tokens (snd (generateToken tz now st db))).
Proof.
  intros Inv.
  destruct (generateToken_outcome tz now st db)
    as [[j [d [_ [_ [_ [-> _]]]]]]|[_ ->]]; simpl; [|exact Inv].
  apply Forall_app. split; [exact Inv|].
  constructor; [|constructor]. split; simpl; [congruence|discriminate].
Qed.

Lemma updateWhere_keeps code data l :
  (forall tk, tokenInvariant (data tk)) ->
  Forall tokenInvariant l ->
  Forall tokenInvariant (updateWhere (hasTokenNumber code) data l).
Proof.
  intros Hd Inv. unfold updateWhere. apply Forall_map.
  apply Forall_impl with (2 := Inv). intros tk Htk.
  destruct (hasTokenNumber code tk); [apply Hd|exact Htk].
Qed.

Lemma setServing_invariant cid now tk : tokenInvariant (setServing cid now tk).
Proof. split; simpl; [reflexivity|discriminate]. Qed.

Lemma setCompleted_invariant now tk : tokenInvariant (setCompleted now tk).
Proof. split; simpl; [congruence|reflexivity]. Qed.

Lemma after_keeps c db :
  Forall tokenInvariant (tokens db) ->
  Forall tokenInvariant (tokens (after c db)).
Proof.
  intros Inv. destruct c as [tz now st|tz now v|now code cid|now cid code|now code|cid];
    simpl.
  - now apply generateToken_keeps.
  - unfold postToken. destruct (falsy v); [exact Inv|].
    destruct (includesServiceType v) as [st|]; [|exact Inv].
    pose proof (generateToken_keeps tz now st db Inv) as H.
    destruct (generateToken tz now st db) as [[d|e] db']; exact H.
  - rewrite assignTokenToCounter_cases.
    destruct (find (hasTokenNumber code) (tokens db)); [|exact Inv].
    destruct (existsb (hasCounterId cid) (counters db)); [|exact Inv].
    simpl. apply updateWhere_keeps; [apply setServing_invariant|exact Inv].
  - rewrite assignCounter_cases.
    destruct (find (hasCounterId cid) (counters db)) as [c|]; [|exact Inv].
    destruct (Counter.status c); [|exact Inv].
    destruct (servingTokens cid db); [|exact Inv].
    destruct (find (hasTokenNumber code) (tokens db)); [|exact Inv].
    simpl. apply updateWhere_keeps; [apply setServing_invariant|exact Inv].
  - rewrite completeToken_cases.
    destruct (find (hasTokenNumber code) (tokens db)); [|exact Inv].
    simpl. apply updateWhere_keeps; [apply setCompleted_invariant|exact Inv].
  - rewrite deactivateCounter_cases.
    destruct (servingTokens cid db); [|exact Inv].
    destruct (find (hasCounterId cid) (counters db)); exact Inv.
Qed.

(** C7. Starting from a store without tokens (any counters), after any
    sequence of calls to [generateToken] (directly or through the route),
    [assignTokenToCounter], [assignCounter], [completeToken] and
    [deactivateCounter], resolved or rejected, every token satisfies both:
    a non-null [counterId] implies [SERVING], and [COMPLETED] implies a
    null [counterId]. *)
Theorem reachable_tokens_invariant
  (cs : list Counter.t) (nextT nextC : Z) (calls : list Call) :
  Forall tokenInvariant (tokens (runCalls calls (mkDb [] cs nextT nextC))).
Proof.
  unfold runCalls.
  assert (G : forall db, Forall tokenInvariant (tokens db) ->
                Forall tokenInvariant
                  (tokens (fold_left (fun d c => after c d) calls db))).
  { induction calls as [|c calls IH]; intros db Inv; simpl; [exact Inv|].
    apply IH. now apply after_keeps. }
  apply G. constructor.
Qed.

(** ** Position in the queue (C5) *)

Lemma calculateQueuePosition_cases code db :
  calculateQueuePosition code db =
  (Resolved
     match find (hasTokenNumber code) (tokens db) with
     | None => 0
     | Some tk =>
         if isWaiting tk
         then Z.of_nat (List.length (filter (aheadOf tk) (tokens db))) + 1
         else 0
     end, db).
Proof.
  unfold calculateQueuePosition, bind, token_findUnique, ret, token_count.
  destruct (find (hasTokenNumber code) (tokens db)) as [tk|]; [|reflexivity].
  destruct (isWaiting tk); reflexivity.
Qed.

Lemma find_map_withQueuePosition code g l :
  find (hasTokenNumber code) (map (fun tk => withQueuePosition (g tk) tk) l)
  = option_map (fun tk => withQueuePosition (g tk) tk)
               (find (hasTokenNumber code) l).
Proof.
  induction l as [|a l IH]; simpl; [reflexivity|].
  unfold hasTokenNumber at 1. simpl. fold (hasTokenNumber code a).
  destruct (hasTokenNumber code a); [reflexivity|exact IH].
Qed.

Lemma filter_length_map {A} (p q : A -> bool) (f : A -> A) l :
  (forall x, q (f x) = p x) ->
  List.length (filter q (map f l)) = List.length (filter p l).
Proof.
  intros H. induction l as [|a l IH]; simpl; [reflexivity|].
  rewrite H. destruct (p a); simpl; now rewrite IH.
Qed.

(** C5. [calculateQueuePosition] answers 0 for an unknown number and for
    a token that is not [WAITING]; for a [WAITING] token it answers one
    plus the number of [WAITING] tokens of the same service type whose
    [createdAt] is strictly earlier. It reads the rows as they are at the
    call and leaves the store untouched, and the stored [queuePosition]
    column has no part in the answer: replacing that column in every row
    by anything gives the same answer. *)
Theorem calculateQueuePosition_live (code : string) (db : Db) :
  (find (hasTokenNumber code) (tokens db) = None ->
     calculateQueuePosition code db = (Resolved 0, db))
  /\ (forall tk, find (hasTokenNumber code) (tokens db) = Some tk ->
        Token.status tk <> WAITING ->
        calculateQueuePosition code db = (Resolved 0, db))
  /\ (forall tk, find (hasTokenNumber code) (tokens db) = Some tk ->
        Token.status tk = WAITING ->
        calculateQueuePosition code db =
        (Resolved
           (1 + Z.of_nat (List.length
                  (filter (fun other =>
                             TokenStatus_eqb (Token.status other) WAITING
                             && String.eqb (Token.serviceType other)
                                           (Token.serviceType tk)
                             && (Token.createdAt other <? Token.createdAt tk))
                          (tokens db)))), db))
  /\ (forall g, fst (calculateQueuePosition code (restorePositions g db))
                = fst (calculateQueuePosition code db)).
Proof.
  split; [|split; [|split]].
  - intros H. now rewrite calculateQueuePosition_cases, H.
  - intros tk H Hs. rewrite calculateQueuePosition_cases, H.
    unfold isWaiting. apply TokenStatus_eqb_neq in Hs. now rewrite Hs.
  - intros tk H Hs. rewrite calculateQueuePosition_cases, H.
    unfold isWaiting. rewrite Hs. simpl. f_equal. f_equal. apply Z.add_comm.
  - intros g. rewrite !calculateQueuePosition_cases. simpl.
    rewrite find_map_withQueuePosition.
    destruct (find (hasTokenNumber code) (tokens db)) as [tk|]; simpl;
      [|reflexivity].
    unfold isWaiting at 1. simpl. fold (isWaiting tk).
    destruct (isWaiting tk); [|reflexivity].
    f_equal. f_equal. f_equal. apply filter_length_map. reflexivity.
Qed.

Lemma calculateQueuePosition_live_witness :
  calculateQueuePosition "P-003"
    (mkDb [completedParcel; laterParcel; latestParcel] [] 4 1)
  = (Resolved 2, mkDb [completedParcel; laterParcel; latestParcel] [] 4 1)
  /\ calculateQueuePosition "P-001" (mkDb [servingParcel] [] 2 1)
     = (Resolved 0, mkDb [servingParcel] [] 2 1)
  /\ calculateQueuePosition "X-999" (mkDb [servingParcel] [] 2 1)
     = (Resolved 0, mkDb [servingParcel] [] 2 1).
Proof.
  split; [|split].
  - exact (proj1 (proj2 (proj2 (calculateQueuePosition_live "P-003"
             (mkDb [completedParcel; laterParcel; latestParcel] [] 4 1))))
             latestParcel eq_refl eq_refl).
  - apply (proj1 (proj2 (calculateQueuePosition_live "P-001"
             (mkDb [servingParcel] [] 2 1))) servingParcel eq_refl).
    discriminate.
  - exact (proj1 (calculateQueuePosition_live "X-999"
             (mkDb [servingParcel] [] 2 1)) eq_refl).
Defined.

(** ** Token details (C10) *)

Lemma getTokenDetails_cases now code db :
  getTokenDetails now code db =
  (Resolved
     match find (hasTokenNumber code) (tokens db) with
     | None => None
     | Some tk =>
         let live :=
           if isWaiting tk
           then (Z.of_nat (List.length (filter (aheadOf tk) (tokens db))) + 1,
                 Z.max 0 ((Z.of_nat (List.length (filter (aheadOf tk) (tokens db)))
                           + 1 - 1)
                          * averageServiceTime
                              (filter (recentlyCompleted (now - 24 * 3600000))
                                      (tokens db))))
           else (0, 0) in
         Some (mkDetails (Token.tokenNumber tk) (Token.serviceType tk)
                 (Token.status tk) (fst live) (snd live)
                 (counterNumberOf db tk) (Token.createdAt tk)
                 (Token.calledAt tk) (Token.completedAt tk))
     end, db).
Proof.
  unfold getTokenDetails, bind at 1, token_findUnique.
  destruct (find (hasTokenNumber code) (tokens db)) as [tk|] eqn:Hf;
    [|reflexivity].
  unfold bind at 1. destruct (isWaiting tk) eqn:Hw; [|reflexivity].
  unfold bind at 1. rewrite calculateQueuePosition_cases, Hf, Hw.
  reflexivity.
Qed.

(** C10. For an existing token that is [SERVING] or [COMPLETED],
    [getTokenDetails] resolves with the token's own fields and with
    [queuePosition = 0] and [estimatedWaitTime = 0]; the store is only
    read. The position and the estimate are computed only for a
    [WAITING] token, as [calculateQueuePosition] of its number and
    [estimateWaitTime] of that position. *)
Theorem getTokenDetails_not_waiting (now : Z) (code : string) (db : Db)
  (tk : Token.t) :
  find (hasTokenNumber code) (tokens db) = Some tk ->
  (Token.status tk = SERVING \/ Token.status tk = COMPLETED ->
     exists d,
       getTokenDetails now code db = (Resolved (Some d), db)
       /\ d_queuePosition d = 0
       /\ d_estimatedWaitTime d = 0
       /\ d_tokenNumber d = Token.tokenNumber tk
       /\ d_serviceType d = Token.serviceType tk
       /\ d_status d = Token.status tk
       /\ d_counter d = counterNumberOf db tk
       /\ d_createdAt d = Token.createdAt tk
       /\ d_calledAt d = Token.calledAt tk
       /\ d_completedAt d = Token.completedAt tk)
  /\ (Token.status tk = WAITING ->
      exists d position,
        getTokenDetails now code db = (Resolved (Some d), db)
        /\ calculateQueuePosition code db = (Resolved position, db)
        /\ d_queuePosition d = position
        /\ estimateWaitTime now position db
           = (Resolved (d_estimatedWaitTime d), db)).
Proof.
  intros Hf. rewrite getTokenDetails_cases, Hf. split.
  - intros Hs.
    assert (Hw : isWaiting tk = false)
      by (unfold isWaiting; destruct Hs as [-> | ->]; reflexivity).
    rewrite Hw. eexists. split; [reflexivity|]. simpl. now repeat split.
  - intros Hs.
    assert (Hw : isWaiting tk = true) by (unfold isWaiting; now rewrite Hs).
    rewrite Hw. eexists _, _. split; [reflexivity|].
    rewrite calculateQueuePosition_cases, Hf, Hw. split; [reflexivity|].
    split; [reflexivity|]. rewrite estimateWaitTime_readonly. reflexivity.
Qed.

Lemma getTokenDetails_not_waiting_witness :
  exists d,
    getTokenDetails 900 "P-001" (mkDb [servingParcel] [counterOne] 2 2)
    = (Resolved (Some d), mkDb [servingParcel] [counterOne] 2 2)
    /\ d_queuePosition d = 0
    /\ d_estimatedWaitTime d = 0.
Proof.
  destruct (proj1 (getTokenDetails_not_waiting 900 "P-001"
                     (mkDb [servingParcel] [counterOne] 2 2)
                     servingParcel eq_refl) (or_introl eq_refl))
    as [d [H [Hq [He _]]]].
  exists d. repeat split; assumption.
Defined.

(** ** Wait-time estimate (C6) *)

Lemma fold_addServiceTime l : forall acc,
  fold_left addServiceTime l acc = acc + sumZ (map serviceTime l).
Proof.
  induction l as [|tk l IH]; intros acc; simpl; [lia|].
  rewrite IH. unfold addServiceTime, serviceTime.
  destruct (Token.calledAt tk), (Token.completedAt tk); lia.
Qed.

Lemma isSome_true {A} (o : option A) : isSome o = true <-> o <> None.
Proof. destruct o; simpl; split; congruence. Qed.

Lemma recentlyCompleted_iff y tk :
  recentlyCompleted y tk = true <->
  Token.status tk = COMPLETED /\ Token.calledAt tk <> None
  /\ Token.completedAt tk <> None /\ y <= Token.createdAt tk.
Proof.
  unfold recentlyCompleted.
  rewrite !andb_true_iff, TokenStatus_eqb_eq, !isSome_true, Z.leb_le. tauto.
Qed.

(** [mathRoundDiv num den] is the integer within one half of [num / den],
    the upper one at a tie. *)
Lemma mathRoundDiv_nearest num den :
  0 < den ->
  2 * den * mathRoundDiv num den <= 2 * num + den
  < 2 * den * (mathRoundDiv num den + 1).
Proof.
  intros Hd. unfold mathRoundDiv.
  assert (H2 : 0 < 2 * den) by lia.
  pose proof (Z.mul_div_le (2 * num + den) (2 * den) H2).
  pose proof (Z.mul_succ_div_gt (2 * num + den) (2 * den) H2).
  unfold Z.succ in *. lia.
Qed.

(** C6, as the code has it. With [recent] the [COMPLETED] tokens with
    both [calledAt] and [completedAt] set that were created in the last
    24 hours, [estimateWaitTime now p] is [max 0 ((p - 1) * avg)], where
    [avg] is 5 when [recent] is empty and otherwise the larger of 2 and
    the mean of [completedAt - calledAt] over [recent] in minutes rounded
    to the nearest integer (halves upwards). So [avg] is at least 2, the
    estimate is never negative, is 0 at positions 1 and below, and is
    [(p - 1) * avg] from position 1 on. The store is only read. *)
Theorem estimateWaitTime_formula (now p : Z) (db : Db) :
  let recent := filter (recentlyCompleted (now - 24 * 3600000)) (tokens db) in
  let total := sumZ (map serviceTime recent) in
  let n := Z.of_nat (List.length recent) in
  exists avg,
    estimateWaitTime now p db = (Resolved (Z.max 0 ((p - 1) * avg)), db)
    /\ (forall tk, In tk recent <->
          In tk (tokens db) /\ Token.status tk = COMPLETED
          /\ Token.calledAt tk <> None /\ Token.completedAt tk <> None
          /\ now - 24 * 3600000 <= Token.createdAt tk)
    /\ (n = 0 -> avg = 5)
    /\ (0 < n ->
        exists m, avg = Z.max m 2
                  /\ 2 * (n * 60000) * m <= 2 * total + n * 60000
                     < 2 * (n * 60000) * (m + 1))
    /\ 2 <= avg
    /\ 0 <= Z.max 0 ((p - 1) * avg)
    /\ (p <= 1 -> Z.max 0 ((p - 1) * avg) = 0)
    /\ (1 <= p -> Z.max 0 ((p - 1) * avg) = (p - 1) * avg).
Proof.
  intros recent total n. exists (averageServiceTime recent).
  assert (Havg : 2 <= averageServiceTime recent).
  { unfold averageServiceTime. destruct recent; lia. }
  split; [apply estimateWaitTime_readonly|].
  split.
  { intros tk. unfold recent. rewrite filter_In, recentlyCompleted_iff. tauto. }
  split.
  { intros Hn. unfold n in Hn. destruct recent; [reflexivity|simpl in Hn; lia]. }
  split.
  { intros Hn. unfold averageServiceTime.
    destruct recent as [|tk rest] eqn:E; [unfold n in Hn; simpl in Hn; lia|].
    eexists. split; [reflexivity|].
    rewrite fold_addServiceTime. rewrite Z.add_0_l. fold total. fold n.
    apply mathRoundDiv_nearest. lia. }
  split; [exact Havg|]. split; [lia|]. split; intros Hp; [|nia].
  assert ((p - 1) * averageServiceTime recent <= 0) by nia. lia.
Qed.

Lemma estimateWaitTime_formula_witness :
  exists avg,
    estimateWaitTime 200000 2 (mkDb [quickParcel] [] 2 1)
    = (Resolved (Z.max 0 ((2 - 1) * avg)), mkDb [quickParcel] [] 2 1)
    /\ exists m, avg = Z.max m 2
                 /\ 2 * (1 * 60000) * m <= 2 * 150000 + 1 * 60000
                    < 2 * (1 * 60000) * (m + 1).
Proof.
  destruct (estimateWaitTime_formula 200000 2 (mkDb [quickParcel] [] 2 1))
    as [avg [H [_ [_ [Hm _]]]]].
  exists avg. split; [exact H|]. apply Hm. reflexivity.
Defined.

(** The code does not return the mean. A single service of 2.5 minutes
    gives 3 minutes at position 2, where the mean gives 2.5. And a token
    completed an hour ago but created 25 hours ago is left out: position
    2 gets the default 5 minutes, where the mean over the tokens
    completed in the last 24 hours gives 10. *)
Lemma estimateWaitTime_not_the_mean :
  (fst (estimateWaitTime 200000 2 (mkDb [quickParcel] [] 2 1)) = Resolved 3
   /\ Qeq (spec_estimate 200000 (mkDb [quickParcel] [] 2 1) 2) (Qmake 5 2))
  /\ (fst (estimateWaitTime 90000000 2 (mkDb [slowParcel] [] 2 1)) = Resolved 5
      /\ Qeq (spec_estimate 90000000 (mkDb [slowParcel] [] 2 1) 2)
             (inject_Z 10))
  /\ ~ Qeq (inject_Z 3) (Qmake 5 2)
  /\ ~ Qeq (inject_Z 5) (inject_Z 10).
Proof.
  split; [|split; [|split]].
  - split; [reflexivity|]. vm_compute. reflexivity.
  - split; [reflexivity|]. vm_compute. reflexivity.
  - vm_compute. discriminate.
  - vm_compute. discriminate.
Qed.

(** ** Unknown categories (C9) *)

Lemma generateToken_first_free tz now st db :
  let code := formatTokenNumber (getServicePrefix st)
                (todayCount tz now st db + 1) in
  ~ taken code db ->
  exists d,
    generateToken tz now st db =
    (Resolved d,
     mkDb (tokens db ++ [newToken db now code st])
          (counters db) (nextTokenId db + 1) (nextCounterId db))
    /\ d_tokenNumber d = code
    /\ d_serviceType d = st
    /\ d_status d = WAITING.
Proof.
  intros code Hfree.
  destruct (generateToken_outcome tz now st db)
    as [[j [d [Hj [_ [Hbelow [Hg [Hn [Hst [Hw _]]]]]]]]]|[Hall _]].
  - destruct j as [|j].
    + rewrite Nat.add_0_r in Hg, Hn. exists d. now repeat split.
    + exfalso. apply Hfree. unfold code.
      replace (todayCount tz now st db + 1)%nat
        with (todayCount tz now st db + 0 + 1)%nat by lia.
      apply Hbelow. lia.
  - exfalso. apply Hfree. unfold code.
    replace (todayCount tz now st db + 1)%nat
      with (todayCount tz now st db + 0 + 1)%nat by lia.
    apply Hall. unfold maxAttempts. lia.
Qed.






(** ** The next pending token (C4) *)

Lemma hd_insertByCreatedAt tk l :
  hd_error (insertByCreatedAt tk l) = pickEarlier tk (hd_error l).
Proof.
  destruct l as [|x l]; simpl; [reflexivity|].
  destruct (Token.createdAt tk <=? Token.createdAt x); reflexivity.
Qed.

Lemma hd_orderByCreatedAt rows :
  hd_error (orderByCreatedAt rows) = fold_right pickEarlier None rows.
Proof.
  induction rows as [|tk rows IH]; simpl; [reflexivity|].
  unfold orderByCreatedAt in *. simpl.
  now rewrite hd_insertByCreatedAt, IH.
Qed.

(** The head of the ordered rows: no row is earlier, and every row in
    front of it in the given order is strictly later. *)
Lemma earliest_split rows :
  match fold_right pickEarlier None rows with
  | None => rows = []
  | Some tk =>
      exists front back,
        rows = front ++ tk :: back
        /\ (forall x, In x front -> Token.createdAt tk < Token.createdAt x)
        /\ (forall x, In x back -> Token.createdAt tk <= Token.createdAt x)
  end.
Proof.
  induction rows as [|a rows IH]; simpl; [reflexivity|].
  destruct (fold_right pickEarlier None rows) as [x|]; simpl.
  - destruct IH as [front [back [-> [Hf Hb]]]].
    destruct (Token.createdAt a <=? Token.createdAt x) eqn:E.
    + apply Z.leb_le in E. exists [], (front ++ x :: back).
      split; [reflexivity|]. split; [intros y []|].
      intros y Hy. apply in_app_or in Hy. destruct Hy as [Hy|[<-|Hy]].
      * specialize (Hf y Hy). lia.
      * exact E.
      * specialize (Hb y Hy). lia.
    + apply Z.leb_gt in E. exists (a :: front), back.
      split; [reflexivity|]. split; [|exact Hb].
      intros y [<-|Hy]; [exact E|exact (Hf y Hy)].
  - subst rows. exists [], []. split; [reflexivity|]. split; intros y [].
Qed.

Lemma isWaiting_iff tk : isWaiting tk = true <-> Token.status tk = WAITING.
Proof. apply TokenStatus_eqb_eq. Qed.

(** C4, as the code has it. Whatever the order [scan] in which the
    storage engine reads the table, [getNextToken] only reads, answers
    null exactly when no token is [WAITING], and otherwise answers a
    [WAITING] token no other [WAITING] token was created before. The
    query sorts by [createdAt] alone: among [WAITING] tokens of equal
    [createdAt] it answers the one the engine read first, every row read
    before the answer being strictly later in time. *)
Theorem getNextToken_earliest
  (scan : list Token.t -> list Token.t) (db : Db) :
  (forall l, Permutation (scan l) l) ->
  exists r,
    getNextToken scan db = (Resolved r, db)
    /\ (r = None <->
        forall tk, In tk (tokens db) -> Token.status tk <> WAITING)
    /\ (forall tk, r = Some tk ->
          In tk (tokens db)
          /\ Token.status tk = WAITING
          /\ (forall other, In other (tokens db) ->
                Token.status other = WAITING ->
                Token.createdAt tk <= Token.createdAt other)
          /\ exists front back,
               filter isWaiting (scan (tokens db)) = front ++ tk :: back
               /\ forall x, In x front ->
                    Token.createdAt tk < Token.createdAt x).
Proof.
  intros Hscan. eexists. split; [reflexivity|].
  rewrite hd_orderByCreatedAt.
  pose proof (earliest_split (filter isWaiting (scan (tokens db)))) as Hsplit.
  assert (Hmem : forall x, In x (filter isWaiting (scan (tokens db))) <->
                   In x (tokens db) /\ Token.status x = WAITING).
  { intros x. rewrite filter_In, isWaiting_iff. split; intros [H1 H2];
      (split; [|exact H2]).
    - exact (Permutation_in x (Hscan _) H1).
    - exact (Permutation_in x (Permutation_sym (Hscan _)) H1). }
  destruct (fold_right pickEarlier None (filter isWaiting (scan (tokens db))))
    as [tk|].
  - destruct Hsplit as [front [back [Heq [Hf Hb]]]]. split.
    + split; [discriminate|]. intros Hnone. exfalso.
      assert (Hin : In tk (filter isWaiting (scan (tokens db))))
        by (rewrite Heq; apply in_elt).
      apply Hmem in Hin. destruct Hin as [Hin Hw]. exact (Hnone tk Hin Hw).
    + intros tk' [= <-].
      assert (Hin : In tk (filter isWaiting (scan (tokens db))))
        by (rewrite Heq; apply in_elt).
      apply Hmem in Hin. destruct Hin as [Hin Hw].
      split; [exact Hin|]. split; [exact Hw|]. split.
      * intros other Ho Hwo.
        assert (Hino : In other (filter isWaiting (scan (tokens db))))
          by (apply Hmem; now split).
        rewrite Heq in Hino. apply in_app_or in Hino.
        destruct Hino as [H|[<-|H]];
          [specialize (Hf other H); lia|lia|exact (Hb other H)].
      * exists front, back. split; [exact Heq|exact Hf].
  - split.
    + split; [|reflexivity]. intros _ tk Hin Hw.
      assert (H : In tk (filter isWaiting (scan (tokens db))))
        by (apply Hmem; now split).
      rewrite Hsplit in H. exact H.
    + intros tk [=].
Qed.

Lemma getNextToken_earliest_witness :
  exists r,
    getNextToken (fun l => l) (mkDb [firstInserted; secondInserted] [] 3 1)
    = (Resolved r, mkDb [firstInserted; secondInserted] [] 3 1)
    /\ forall tk, r = Some tk -> Token.status tk = WAITING.
Proof.
  destruct (getNextToken_earliest (fun l => l)
              (mkDb [firstInserted; secondInserted] [] 3 1)
              (fun l => Permutation_refl l)) as [r [H [_ Hr]]].
  exists r. split; [exact H|]. intros tk Htk. exact (proj1 (proj2 (Hr tk Htk))).
Defined.

(** With equal [createdAt] the answer is not fixed by insertion order: an
    engine that hands the rows over in reverse gets the token inserted
    second, the one with the larger [id]. *)
Lemma getNextToken_tie_follows_scan :
  Permutation (rev [firstInserted; secondInserted])
              [firstInserted; secondInserted]
  /\ Token.createdAt firstInserted = Token.createdAt secondInserted
  /\ Token.id firstInserted < Token.id secondInserted
  /\ fst (getNextToken (@rev Token.t)
            (mkDb [firstInserted; secondInserted] [] 3 1))
     = Resolved (Some secondInserted)
  /\ fst (getNextToken (fun l => l)
            (mkDb [firstInserted; secondInserted] [] 3 1))
     = Resolved (Some firstInserted).
Proof.
  split; [apply Permutation_sym, Permutation_rev|].
  repeat split; reflexivity.
Qed.

(** ** Sequential numbering (C3) *)

Lemma parseDecimal_zero s :
  parseDecimal (String "0" s) = parseDecimal s.
Proof.
  unfold parseDecimal. simpl.
  destruct (NilEmpty.uint_of_string s) as [d|]; reflexivity.
Qed.

Lemma parseDecimal_replicate j s :
  parseDecimal (String.append (replicate j "0") s) = parseDecimal s.
Proof.
  induction j as [|j IH]; simpl; [reflexivity|].
  now rewrite parseDecimal_zero.
Qed.

Lemma parseDecimal_decimal n : parseDecimal (decimal n) = Some n.
Proof.
  unfold parseDecimal, decimal. rewrite NilEmpty.usu. simpl.
  now rewrite DecimalNat.Unsigned.of_to.
Qed.

Lemma parseDecimal_padStart n :
  parseDecimal (padStart 3 "0" (decimal n)) = Some n.
Proof.
  unfold padStart. now rewrite parseDecimal_replicate, parseDecimal_decimal.
Qed.

Lemma append_inj_r p : forall x y,
  String.append p x = String.append p y -> x = y.
Proof.
  induction p as [|c p IH]; simpl; intros x y H; [exact H|].
  injection H as H. now apply IH.
Qed.

Lemma formatTokenNumber_inj prefix a b :
  formatTokenNumber prefix a = formatTokenNumber prefix b -> a = b.
Proof.
  unfold formatTokenNumber. intros H.
  apply append_inj_r in H. apply append_inj_r in H.
  pose proof (parseDecimal_padStart a) as Ha.
  rewrite H, parseDecimal_padStart in Ha. congruence.
Qed.

(** Numbers below 1000 print on exactly three characters. *)
Lemma padStart_three_digits n :
  (n < 1000)%nat -> String.length (padStart 3 "0" (decimal n)) = 3%nat.
Proof.
  intros H.
  assert (A : forallb (fun k => Nat.eqb (String.length (padStart 3 "0" (decimal k))) 3)
                (seq 0 1000) = true) by (vm_compute; reflexivity).
  rewrite forallb_forall in A. apply Nat.eqb_eq. apply A.
  apply in_seq. lia.
Qed.

Lemma todayCount_day tz now st db :
  todayCount tz now st db =
  List.length (filter (onDayOf (todayStart tz now) st) (tokens db)).
Proof. reflexivity. Qed.

Lemma now_onDay tz now :
  todayStart tz now <= now <= todayStart tz now + (msPerDay - 1).
Proof.
  unfold todayStart.
  pose proof (Z.mod_pos_bound (now + tz) msPerDay eq_refl). lia.
Qed.

Lemma taken_app code db tk n c :
  taken code (mkDb (tokens db ++ [tk]) c n (nextCounterId db)) ->
  taken code db \/ Token.tokenNumber tk = code.
Proof.
  unfold taken. simpl. intros H.
  destruct (find (hasTokenNumber code) (tokens db)) eqn:E; [left; congruence|].
  right. destruct (find (hasTokenNumber code) (tokens db ++ [tk])) as [x|] eqn:F;
    [|congruence].
  apply find_some in F. destruct F as [Hin Hx].
  apply in_app_or in Hin. destruct Hin as [Hin|[<-|[]]].
  - rewrite find_none_iff in E. rewrite (E x Hin) in Hx. discriminate.
  - now apply String.eqb_eq.
Qed.

Lemma generateTokens_from tz st day : forall nows db base,
  (forall now, In now nows -> todayStart tz now = day) ->
  List.length (filter (onDayOf day st) (tokens db)) = base ->
  (forall k, (base < k <= base + List.length nows)%nat ->
     ~ taken (formatTokenNumber (getServicePrefix st) k) db) ->
  exists ds,
    fst (generateTokens tz st nows db) = map Resolved ds
    /\ map d_tokenNumber ds
       = map (formatTokenNumber (getServicePrefix st))
             (seq (S base) (List.length nows))
    /\ Forall (fun d => d_status d = WAITING /\ d_serviceType d = st) ds.
Proof.
  induction nows as [|now rest IH]; intros db base Hday Hbase Hfree.
  - exists []. simpl. repeat split; constructor.
  - assert (Hnow : todayStart tz now = day) by (apply Hday; now left).
    assert (Hcount : todayCount tz now st db = base)
      by (rewrite todayCount_day, Hnow; exact Hbase).
    pose proof (generateToken_first_free tz now st db) as Hg. simpl in Hg.
    rewrite Hcount in Hg.
    destruct Hg as [d [Hg [Hn [Hs Hw]]]].
    { apply Hfree. simpl. lia. }
    simpl. rewrite Hg.
    set (db' := mkDb (tokens db ++
                        [newToken db now
                           (formatTokenNumber (getServicePrefix st) (base + 1)) st])
                     (counters db) (nextTokenId db + 1) (nextCounterId db)) in *.
    destruct (IH db' (S base)) as [ds [Hds [Hcodes Hall]]].
    + intros n Hn'. apply Hday. now right.
    + unfold db'. simpl. rewrite filter_app, length_app, Hbase. simpl.
      assert (Hon : onDayOf day st
                      (newToken db now
                         (formatTokenNumber (getServicePrefix st) (base + 1)) st)
                    = true).
      { unfold onDayOf, newToken. cbn [Token.serviceType Token.createdAt].
        pose proof (now_onDay tz now) as Hb. rewrite Hnow in Hb.
        destruct Hb as [Hb1 Hb2].
        apply Z.leb_le in Hb1. apply Z.leb_le in Hb2.
        now rewrite String.eqb_refl, Hb1, Hb2. }
      rewrite Hon. simpl. lia.
    + intros k Hk Htaken. apply taken_app in Htaken.
      destruct Htaken as [Ht|Ht].
      * apply (Hfree k); [simpl; lia|exact Ht].
      * simpl in Ht. apply formatTokenNumber_inj in Ht. lia.
    + destruct (generateTokens tz st rest db') as [os db''] eqn:E.
      simpl in Hds. exists (d :: ds). simpl. split; [now rewrite Hds|].
      split.
      * rewrite Hn, Hcodes. f_equal. f_equal. lia.
      * constructor; [now split|exact Hall].
Qed.

(** C3, as the code has it. Let [n] calls of [generateToken] for one
    category follow one another within one day, starting from a store
    with no token of that category created that day, and in which none of
    the numbers [prefix-001 .. prefix-n] is held by a token (of an
    earlier day, say). Then every call resolves, and the numbers issued
    are, in call order, the category's prefix, a dash and
    [1, 2, .., n] padded with zeros to three digits; the digits read back
    as the sequence number, and below 1000 they are exactly three. For
    the four categories the prefix is the letter of [prefixMap]. *)
Theorem generateToken_sequential
  (tz day : Z) (st : string) (nows : list Z) (db : Db) :
  (forall now, In now nows -> todayStart tz now = day) ->
  (forall tk, In tk (tokens db) -> Token.serviceType tk = st -> ~ onDay day tk) ->
  (forall k, (1 <= k <= List.length nows)%nat ->
     ~ taken (formatTokenNumber (getServicePrefix st) k) db) ->
  exists ds,
    fst (generateTokens tz st nows db) = map Resolved ds
    /\ map d_tokenNumber ds
       = map (formatTokenNumber (getServicePrefix st))
             (seq 1 (List.length nows))
    /\ Forall (fun d => d_status d = WAITING /\ d_serviceType d = st) ds
    /\ (forall k, formatTokenNumber (getServicePrefix st) k
                  = String.append (getServicePrefix st)
                      (String "-" (padStart 3 "0" (decimal k)))
                  /\ parseDecimal (padStart 3 "0" (decimal k)) = Some k
                  /\ ((k < 1000)%nat ->
                      String.length (padStart 3 "0" (decimal k)) = 3%nat))
    /\ (In st validServiceTypes -> In (st, getServicePrefix st) prefixMap).
Proof.
  intros Hday Hnone Hfree.
  destruct (generateTokens_from tz st day nows db 0 Hday) as [ds [H1 [H2 H3]]].
  - apply length_zero_iff_nil.
    destruct (filter (onDayOf day st) (tokens db)) as [|tk l] eqn:E;
      [reflexivity|].
    exfalso. assert (Hin : In tk (filter (onDayOf day st) (tokens db)))
      by (rewrite E; now left).
    apply filter_In in Hin. destruct Hin as [Hin Hp].
    unfold onDayOf in Hp. rewrite !andb_true_iff in Hp.
    destruct Hp as [[Hst Hlo] Hhi].
    apply String.eqb_eq in Hst. apply Z.leb_le in Hlo. apply Z.leb_le in Hhi.
    apply (Hnone tk Hin Hst). split; assumption.
  - intros k Hk. apply Hfree. lia.
  - exists ds. split; [exact H1|]. split; [exact H2|]. split; [exact H3|].
    split.
    + intros k. split; [reflexivity|]. split; [apply parseDecimal_padStart|].
      apply padStart_three_digits.
    + simpl. intros [<-|[<-|[<-|[<-|[]]]]]; simpl; tauto.
Qed.

Lemma generateToken_sequential_witness :
  exists ds,
    fst (generateTokens 0 "Parcel Drop-off" [1000; 2000; 3000] (mkDb [] [] 1 1))
    = map Resolved ds
    /\ map d_tokenNumber ds = ["P-001"; "P-002"; "P-003"].
Proof.
  destruct (generateToken_sequential 0 0 "Parcel Drop-off" [1000; 2000; 3000]
              (mkDb [] [] 1 1)) as [ds [H1 [H2 _]]].
  - intros now [<-|[<-|[<-|[]]]]; reflexivity.
  - intros tk [].
  - intros k _ H. apply H. reflexivity.
  - exists ds. split; [exact H1|exact H2].
Defined.

(** A parcel token of the day before (created at 1000) holds "P-001".
    The next day (a day is 86400000 ms) has no parcel token, and its
    first call issues "P-002": the numbers of the day do not start at 1.
    With ten old numbers in the way the call issues nothing. *)
Lemma generateToken_day_two :
  (forall tk, In tk [yesterdayParcel 1] -> ~ onDay 86400000 tk)
  /\ todayStart 0 86401000 = 86400000
  /\ (exists d db',
        generateToken 0 86401000 "Parcel Drop-off"
          (mkDb [yesterdayParcel 1] [] 2 1) = (Resolved d, db')
        /\ d_tokenNumber d = "P-002")
  /\ (forall tk, In tk (map yesterdayParcel (seq 1 10)) -> ~ onDay 86400000 tk)
  /\ generateToken 0 86401000 "Parcel Drop-off"
       (mkDb (map yesterdayParcel (seq 1 10)) [] 11 1)
     = (Rejected (JsError "Unable to generate unique token number"),
        mkDb (map yesterdayParcel (seq 1 10)) [] 11 1).
Proof.
  split; [|split; [|split; [|split]]].
  - intros tk [<-|[]]. unfold onDay. simpl. lia.
  - reflexivity.
  - eexists _, _. split; [vm_compute; reflexivity|reflexivity].
  - intros tk Hin. apply in_map_iff in Hin. destruct Hin as [k [<- _]].
    unfold onDay. simpl. lia.
  - vm_compute. reflexivity.
Qed.

(** * Further properties of the services *)

(** ** The estimate grows with the position *)




(** ** Positions only move forward *)

Lemma filter_updateWhere_le {A} (p q : A -> bool) (f : A -> A) l :
  (forall x, p x = true -> q (f x) = false) ->
  (List.length (filter q (updateWhere p f l)) <= List.length (filter q l))%nat.
Proof.
  intros H. induction l as [|a l IH]; simpl; [lia|].
  destruct (p a) eqn:E.
  - rewrite (H a E). destruct (q a); simpl; lia.
  - destruct (q a); simpl; lia.
Qed.

Lemma find_updateWhere_other code other data l :
  (forall x, hasTokenNumber code (data x) = hasTokenNumber code x) ->
  find (hasTokenNumber code) (updateWhere (hasTokenNumber other) data l)
  = option_map (fun x => if hasTokenNumber other x then data x else x)
      (find (hasTokenNumber code) l).
Proof.
  intros Kcode. induction l as [|a l IH]; simpl; [reflexivity|].
  destruct (hasTokenNumber other a) eqn:Eo.
  - rewrite Kcode. destruct (hasTokenNumber code a); simpl;
      [now rewrite Eo|exact IH].
  - destruct (hasTokenNumber code a); simpl; [now rewrite Eo|exact IH].
Qed.

Lemma position_after_update code other data db :
  (forall x, hasTokenNumber code (data x) = hasTokenNumber code x) ->
  (forall x, isWaiting (data x) = false) ->
  forall db',
    tokens db' = updateWhere (hasTokenNumber other) data (tokens db) ->
    exists a b,
      calculateQueuePosition code db = (Resolved a, db)
      /\ calculateQueuePosition code db' = (Resolved b, db')
      /\ 0 <= b <= a.
Proof.
  intros Kcode Hw db' Ht.
  rewrite !calculateQueuePosition_cases. rewrite Ht.
  eexists _, _. split; [reflexivity|]. split; [reflexivity|].
  rewrite (find_updateWhere_other code other data (tokens db) Kcode).
  destruct (find (hasTokenNumber code) (tokens db)) as [tk|]; simpl; [|lia].
  destruct (hasTokenNumber other tk) eqn:Eo.
  - rewrite Hw. destruct (isWaiting tk); lia.
  - destruct (isWaiting tk); [|lia].
    pose proof (filter_updateWhere_le (hasTokenNumber other) (aheadOf tk) data
                  (tokens db)) as Hle.
    assert (H : forall x, hasTokenNumber other x = true ->
                  aheadOf tk (data x) = false).
    { intros x _. unfold aheadOf. now rewrite Hw. }
    specialize (Hle H). lia.
Qed.

(** X2. Calling or completing any token never moves any token back in
    the queue: for every number, [calculateQueuePosition] after a
    resolved [assignTokenToCounter] or [completeToken] is at most what
    it was before, and never negative. *)
Theorem position_never_grows
  (now : Z) (other code : string) (cid : Z) (db : Db) :
  (forall tk' db', assignTokenToCounter now other cid db = (Resolved tk', db') ->
     exists a b,
       calculateQueuePosition code db = (Resolved a, db)
       /\ calculateQueuePosition code db' = (Resolved b, db')
       /\ 0 <= b <= a)
  /\ (forall tk' db', completeToken now other db = (Resolved tk', db') ->
        exists a b,
          calculateQueuePosition code db = (Resolved a, db)
          /\ calculateQueuePosition code db' = (Resolved b, db')
          /\ 0 <= b <= a).
Proof.
  split; intros tk' db' H.
  - rewrite assignTokenToCounter_cases in H.
    destruct (find (hasTokenNumber other) (tokens db)); [|discriminate].
    destruct (existsb (hasCounterId cid) (counters db)); [|discriminate].
    injection H as _ <-.
    apply (position_after_update code other (setServing cid now) db);
      try reflexivity.
  - rewrite completeToken_cases in H.
    destruct (find (hasTokenNumber other) (tokens db)); [|discriminate].
    injection H as _ <-.
    apply (position_after_update code other (setCompleted now) db);
      try reflexivity.
Qed.

Lemma position_never_grows_witness :
  exists a b,
    calculateQueuePosition "P-003"
      (mkDb [completedParcel; laterParcel; latestParcel] [counterOne] 4 2)
    = (Resolved a,
       mkDb [completedParcel; laterParcel; latestParcel] [counterOne] 4 2)
    /\ calculateQueuePosition "P-003"
         (snd (assignTokenToCounter 500 "P-002" 1
                 (mkDb [completedParcel; laterParcel; latestParcel]
                       [counterOne] 4 2)))
       = (Resolved b,
          snd (assignTokenToCounter 500 "P-002" 1
                 (mkDb [completedParcel; laterParcel; latestParcel]
                       [counterOne] 4 2)))
    /\ 0 <= b <= a.
Proof.
  exact (proj1 (position_never_grows 500 "P-002" "P-003" 1
                  (mkDb [completedParcel; laterParcel; latestParcel]
                        [counterOne] 4 2))
           _ _ eq_refl).
Defined.

(** ** Completion frees the counter *)

Lemma assignCounter_resolves now cid code db c tk :
  find (hasCounterId cid) (counters db) = Some c ->
  Counter.status c = ACTIVE ->
  servingTokens cid db = [] ->
  find (hasTokenNumber code) (tokens db) = Some tk ->
  assignCounter now cid code db =
  (Resolved tt,
   mkDb (updateWhere (hasTokenNumber code) (setServing cid now) (tokens db))
        (counters db) (nextTokenId db) (nextCounterId db)).
Proof.
  intros Hc Hs Hn Ht. now rewrite assignCounter_cases, Hc, Hs, Hn, Ht.
Qed.

(** X3. When the only [SERVING] token of a counter is completed, the
    counter has no [SERVING] token left, so an [ACTIVE] one is available
    again and [assignCounter] accepts it for any existing token. *)
Theorem completeToken_frees_counter
  (now : Z) (code : string) (cid : Z) (db : Db) (tk : Token.t) :
  servingTokens cid db = [tk] ->
  Token.tokenNumber tk = code ->
  exists tk' db',
    completeToken now code db = (Resolved tk', db')
    /\ servingTokens cid db' = []
    /\ (forall c, In c (counters db') -> Counter.id c = cid ->
          Counter.status c = ACTIVE -> isAvailable db' c = true)
    /\ (forall c, find (hasCounterId cid) (counters db) = Some c ->
          Counter.status c = ACTIVE ->
          forall now' next,
            (exists x, find (hasTokenNumber next) (tokens db') = Some x) ->
            exists db'', assignCounter now' cid next db' = (Resolved tt, db'')).
Proof.
  intros Hs Hcode.
  assert (Hin : In tk (tokens db) /\ isServingOn cid tk = true).
  { apply filter_In. unfold servingTokens in Hs. rewrite Hs. now left. }
  destruct Hin as [Hin Hserv].
  assert (Hfind : exists x, find (hasTokenNumber code) (tokens db) = Some x).
  { destruct (find (hasTokenNumber code) (tokens db)) as [x|] eqn:E;
      [now exists x|].
    rewrite find_none_iff in E. specialize (E tk Hin).
    unfold hasTokenNumber in E. rewrite Hcode, String.eqb_refl in E.
    discriminate. }
  destruct Hfind as [x Hx]. rewrite completeToken_cases, Hx.
  eexists _, _. split; [reflexivity|].
  assert (Hnone : servingTokens cid
                    (mkDb (updateWhere (hasTokenNumber code) (setCompleted now)
                             (tokens db))
                          (counters db) (nextTokenId db) (nextCounterId db)) = []).
  { unfold servingTokens. simpl.
    apply length_zero_iff_nil. unfold updateWhere.
    assert (G : forall l, (forall y, In y l -> isServingOn cid y = true ->
                             hasTokenNumber code y = true) ->
                List.length (filter (isServingOn cid)
                  (map (fun y => if hasTokenNumber code y
                                 then setCompleted now y else y) l)) = 0%nat).
    { induction l as [|a l IH]; intros Hl; simpl; [reflexivity|].
      destruct (hasTokenNumber code a) eqn:Ea.
      - simpl. apply IH. intros y Hy. apply Hl. now right.
      - destruct (isServingOn cid a) eqn:Es.
        + rewrite (Hl a (or_introl eq_refl) Es) in Ea. discriminate.
        + apply IH. intros y Hy. apply Hl. now right. }
    apply G. intros y Hy Hsy.
    assert (In y (servingTokens cid db))
      by (apply filter_In; now split).
    rewrite Hs in H. destruct H as [<-|[]].
    unfold hasTokenNumber. rewrite Hcode. apply String.eqb_refl. }
  split; [exact Hnone|]. split.
  - intros c _ Hid Hst. unfold isAvailable. now rewrite Hst, Hid, Hnone.
  - intros c Hc Hst now' next [y Hy].
    eexists. apply (assignCounter_resolves now' cid next _ c y);
      [exact Hc|exact Hst|exact Hnone|exact Hy].
Qed.

Lemma completeToken_frees_counter_witness :
  exists tk' db',
    completeToken 900 "P-001" (mkDb [servingParcel] [counterOne] 2 2)
    = (Resolved tk', db')
    /\ servingTokens 1 db' = [].
Proof.
  destruct (completeToken_frees_counter 900 "P-001" 1
              (mkDb [servingParcel] [counterOne] 2 2) servingParcel
              eq_refl eq_refl) as [tk' [db' [H [Hs _]]]].
  exists tk', db'. split; assumption.
Defined.

(** ** The available counters *)

Lemma insertByNumber_perm c l : Permutation (insertByNumber c l) (c :: l).
Proof.
  induction l as [|x l IH]; simpl; [apply Permutation_refl|].
  destruct (Counter.number c <=? Counter.number x); [apply Permutation_refl|].
  apply perm_trans with (x :: c :: l); [now apply perm_skip|apply perm_swap].
Qed.

Lemma orderByNumber_perm l : Permutation (orderByNumber l) l.
Proof.
  induction l as [|c l IH]; simpl; [constructor|].
  unfold orderByNumber in *. simpl.
  apply perm_trans with (c :: fold_right insertByNumber [] l);
    [apply insertByNumber_perm|now apply perm_skip].
Qed.

Lemma insertByNumber_sorted c l :
  StronglySorted byNumber l -> StronglySorted byNumber (insertByNumber c l).
Proof.
  induction l as [|x l IH]; intros Hs; simpl.
  - constructor; [constructor|constructor].
  - inversion Hs as [|? ? Hl Hx]; subst.
    destruct (Counter.number c <=? Counter.number x) eqn:E.
    + apply Z.leb_le in E. constructor; [exact Hs|].
      constructor; [exact E|].
      apply Forall_impl with (2 := Hx). unfold byNumber. intros a Ha. lia.
    + apply Z.leb_gt in E. constructor; [now apply IH|].
      apply Forall_forall. intros a Ha.
      apply (Permutation_in a (insertByNumber_perm c l)) in Ha.
      destruct Ha as [<-|Ha]; [unfold byNumber; lia|].
      rewrite Forall_forall in Hx. now apply Hx.
Qed.

Lemma orderByNumber_sorted l : StronglySorted byNumber (orderByNumber l).
Proof.
  induction l as [|c l IH]; [constructor|].
  unfold orderByNumber in *. simpl. now apply insertByNumber_sorted.
Qed.

Lemma isAvailable_iff db c :
  isAvailable db c = true <->
  Counter.status c = ACTIVE /\ servingTokens (Counter.id c) db = [].
Proof.
  unfold isAvailable.
  destruct (Counter.status c), (servingTokens (Counter.id c) db);
    split; try discriminate; try tauto; intros [H1 H2]; discriminate.
Qed.

(** X4. [getAvailableCounters] only reads, and answers the counters
    that are [ACTIVE] and have no [SERVING] token, each once, in
    ascending order of [number]. *)
Theorem getAvailableCounters_sorted (db : Db) :
  exists l,
    getAvailableCounters db = (Resolved l, db)
    /\ (forall c, In c l <->
          In c (counters db) /\ Counter.status c = ACTIVE
          /\ servingTokens (Counter.id c) db = [])
    /\ Permutation l (filter (isAvailable db) (counters db))
    /\ StronglySorted byNumber l.
Proof.
  eexists. split; [reflexivity|].
  pose proof (orderByNumber_perm (filter (isAvailable db) (counters db))) as P.
  split; [|split; [exact P|apply orderByNumber_sorted]].
  intros c. rewrite <- isAvailable_iff, <- filter_In. split; intros H.
  - exact (Permutation_in c P H).
  - exact (Permutation_in c (Permutation_sym P) H).
Qed.

(** ** Automatic assignment *)

Lemma In_existsb_hasCounterId c l :
  In c l -> existsb (hasCounterId (Counter.id c)) l = true.
Proof.
  intros H. apply existsb_exists. exists c. split; [exact H|].
  unfold hasCounterId. apply Z.eqb_refl.
Qed.

Lemma In_find_hasTokenNumber tk l :
  In tk l -> exists x, find (hasTokenNumber (Token.tokenNumber tk)) l = Some x.
Proof.
  intros H. destruct (find (hasTokenNumber (Token.tokenNumber tk)) l) as [x|] eqn:E;
    [now exists x|].
  rewrite find_none_iff in E. specialize (E tk H).
  unfold hasTokenNumber in E. rewrite String.eqb_refl in E. discriminate.
Qed.

Lemma chooseCounter_some cid db c :
  chooseCounter cid db = Some c ->
  In c (counters db)
  /\ isAvailable db c = true
  /\ (forall k, givenCounter cid = Some k -> Counter.id c = k)
  /\ (givenCounter cid = None ->
      forall c', In c' (counters db) -> isAvailable db c' = true ->
        Counter.number c <= Counter.number c').
Proof.
  unfold chooseCounter. destruct (givenCounter cid) as [k|].
  - destruct (find (hasCounterId k) (counters db)) as [c0|] eqn:Hf; [|discriminate].
    destruct (isAvailable db c0) eqn:Ha; [|discriminate].
    intros [= <-]. destruct (find_hasCounterId _ _ _ Hf) as [Hin Hid].
    split; [exact Hin|]. split; [exact Ha|]. split; [|discriminate].
    now intros k' [= <-].
  - intros Hhd.
    pose proof (orderByNumber_perm (filter (isAvailable db) (counters db))) as P.
    pose proof (orderByNumber_sorted (filter (isAvailable db) (counters db))) as S.
    destruct (orderByNumber (filter (isAvailable db) (counters db)))
      as [|c0 rest]; [discriminate|].
    simpl in Hhd. injection Hhd as ->.
    assert (Hin : In c (filter (isAvailable db) (counters db)))
      by (apply (Permutation_in c P); now left).
    apply filter_In in Hin. destruct Hin as [Hin Ha].
    split; [exact Hin|]. split; [exact Ha|]. split; [discriminate|].
    intros _ c' Hc' Ha'.
    assert (Hin' : In c' (c :: rest)).
    { apply (Permutation_in c' (Permutation_sym P)). apply filter_In. now split. }
    destruct Hin' as [<-|Hr]; [lia|].
    inversion S as [|? ? _ Hall]; subst.
    rewrite Forall_forall in Hall. exact (Hall c' Hr).
Qed.

Lemma chooseCounter_none cid db :
  chooseCounter cid db = None ->
  match givenCounter cid with
  | Some k => forall c, find (hasCounterId k) (counters db) = Some c ->
                isAvailable db c = false
  | None => forall c, In c (counters db) -> isAvailable db c = false
  end.
Proof.
  unfold chooseCounter. destruct (givenCounter cid) as [k|].
  - destruct (find (hasCounterId k) (counters db)) as [c0|]; [|discriminate].
    destruct (isAvailable db c0) eqn:Ha; [discriminate|].
    now intros _ c [= <-].
  - intros Hhd c Hin.
    pose proof (orderByNumber_perm (filter (isAvailable db) (counters db))) as P.
    destruct (orderByNumber (filter (isAvailable db) (counters db)))
      as [|c0 rest]; [|discriminate].
    destruct (isAvailable db c) eqn:Ha; [|reflexivity].
    exfalso. apply (Permutation_in c (Permutation_sym P)). apply filter_In.
    now split.
Qed.

Lemma tryAssign_cases scan now cid db :
  (forall l, Permutation (scan l) l) ->
  tryAssignWaitingToken scan now cid db =
  match hd_error (orderByCreatedAt (filter isWaiting (scan (tokens db)))),
        chooseCounter cid db with
  | Some tk, Some c =>
      (Resolved true,
       mkDb (updateWhere (hasTokenNumber (Token.tokenNumber tk))
                         (setServing (Counter.id c) now) (tokens db))
            (counters db) (nextTokenId db) (nextCounterId db))
  | _, _ => (Resolved false, db)
  end.
Proof.
  intros Hscan.
  unfold tryAssignWaitingToken, catchFalse, bind at 1, getNextToken.
  pose proof (hd_orderByCreatedAt (filter isWaiting (scan (tokens db)))) as Hhd.
  pose proof (earliest_split (filter isWaiting (scan (tokens db)))) as Hsplit.
  rewrite <- Hhd in Hsplit.
  destruct (hd_error (orderByCreatedAt (filter isWaiting (scan (tokens db)))))
    as [tk|]; [|reflexivity].
  destruct Hsplit as [front [back [Heq _]]].
  assert (Hin : In tk (tokens db)).
  { apply (Permutation_in tk (Hscan _)).
    assert (H : In tk (filter isWaiting (scan (tokens db))))
      by (rewrite Heq; apply in_elt).
    apply filter_In in H. tauto. }
  destruct (In_find_hasTokenNumber tk _ Hin) as [x Hx].
  assert (Hchoice :
    (match givenCounter cid with
     | Some k =>
         counter <- counter_findUnique_serving k ;;
         ret match counter with
             | Some (c, serving) =>
                 match Counter.status c, serving with
                 | ACTIVE, [] => Some c
                 | _, _ => None
                 end
             | None => None
             end
     | None =>
         availableCounters <- getAvailableCounters ;;
         ret (hd_error availableCounters)
     end) db = (Resolved (chooseCounter cid db), db)).
  { unfold chooseCounter. destruct (givenCounter cid) as [k|]; [|reflexivity].
    unfold bind, counter_findUnique_serving, ret.
    destruct (find (hasCounterId k) (counters db)) as [c|]; [|reflexivity].
    simpl. unfold isAvailable.
    destruct (Counter.status c), (servingTokens (Counter.id c) db); reflexivity. }
  unfold bind at 1. rewrite Hchoice.
  destruct (chooseCounter cid db) as [c|] eqn:Hc; [|reflexivity].
  destruct (chooseCounter_some _ _ _ Hc) as [Hcin _].
  unfold bind, ret. rewrite assignTokenToCounter_cases, Hx.
  now rewrite (In_existsb_hasCounterId c _ Hcin).
Qed.

(** X5. [tryAssignWaitingToken] never rejects. It answers [true]
    exactly when some token is [WAITING] and a counter can be chosen: the
    counter given (a non-zero id) if it is [ACTIVE] without a [SERVING]
    token, or, with no counter given (absent, or 0), the available
    counter of the lowest number. Then the token [getNextToken] answers
    is set to [SERVING] on that counter with [calledAt = now]; on [false]
    the store is unchanged. *)
Theorem tryAssignWaitingToken_outcome
  (scan : list Token.t -> list Token.t) (now : Z) (counterId : option Z)
  (db : Db) :
  (forall l, Permutation (scan l) l) ->
  exists b db',
    tryAssignWaitingToken scan now counterId db = (Resolved b, db')
    /\ (b = false -> db' = db)
    /\ (b = true <->
        (exists tk, In tk (tokens db) /\ Token.status tk = WAITING)
        /\ match givenCounter counterId with
           | Some k => exists c, find (hasCounterId k) (counters db) = Some c
                                 /\ isAvailable db c = true
           | None => exists c, In c (counters db) /\ isAvailable db c = true
           end)
    /\ (b = true ->
        exists tk c,
          getNextToken scan db = (Resolved (Some tk), db)
          /\ In c (counters db)
          /\ Counter.status c = ACTIVE
          /\ servingTokens (Counter.id c) db = []
          /\ (forall k, givenCounter counterId = Some k -> Counter.id c = k)
          /\ (givenCounter counterId = None ->
              forall c', In c' (counters db) -> isAvailable db c' = true ->
                Counter.number c <= Counter.number c')
          /\ counters db' = counters db
          /\ rowsRewritten (Token.tokenNumber tk)
               (setServing (Counter.id c) now) (tokens db) (tokens db')).
Proof.
  intros Hscan. rewrite (tryAssign_cases scan now counterId db Hscan).
  pose proof (hd_orderByCreatedAt (filter isWaiting (scan (tokens db)))) as Hhd.
  pose proof (earliest_split (filter isWaiting (scan (tokens db)))) as Hsplit.
  rewrite <- Hhd in Hsplit.
  assert (Hmem : forall x, In x (filter isWaiting (scan (tokens db))) <->
                   In x (tokens db) /\ Token.status x = WAITING).
  { intros x. rewrite filter_In, isWaiting_iff. split; intros [H1 H2];
      (split; [|exact H2]).
    - exact (Permutation_in x (Hscan _) H1).
    - exact (Permutation_in x (Permutation_sym (Hscan _)) H1). }
  unfold getNextToken.
  destruct (hd_error (orderByCreatedAt (filter isWaiting (scan (tokens db)))))
    as [tk|].
  - destruct Hsplit as [front [back [Heq _]]].
    assert (Htk : In tk (tokens db) /\ Token.status tk = WAITING)
      by (apply Hmem; rewrite Heq; apply in_elt).
    destruct (chooseCounter counterId db) as [c|] eqn:Hc.
    + destruct (chooseCounter_some _ _ _ Hc) as [Hin [Ha [Hk Hleast]]].
      eexists _, _. split; [reflexivity|]. split; [discriminate|]. split.
      * split; [|reflexivity]. intros _. split; [now exists tk|].
        destruct (givenCounter counterId) as [k|] eqn:Hg.
        -- exists c. split; [|exact Ha].
           unfold chooseCounter in Hc. rewrite Hg in Hc.
           destruct (find (hasCounterId k) (counters db)) as [c0|];
             [|discriminate].
           destruct (isAvailable db c0); [|discriminate]. now injection Hc as ->.
        -- now exists c.
      * intros _. exists tk, c. split; [reflexivity|]. split; [exact Hin|].
        apply isAvailable_iff in Ha. destruct Ha as [Hst Hno].
        repeat (split; [assumption|]). split; [reflexivity|]. simpl.
        apply updateWhere_rowsRewritten. intros x. apply setServing_key.
    + eexists _, _. split; [reflexivity|]. split; [reflexivity|].
      split; [|discriminate]. split; [discriminate|].
      intros [_ Hex]. exfalso. pose proof (chooseCounter_none _ _ Hc) as Hn.
      destruct (givenCounter counterId) as [k|].
      * destruct Hex as [c [Hf Ha]]. rewrite (Hn c Hf) in Ha. discriminate.
      * destruct Hex as [c [Hin Ha]]. rewrite (Hn c Hin) in Ha. discriminate.
  - eexists _, _. split; [reflexivity|]. split; [reflexivity|].
    split; [|discriminate]. split; [discriminate|].
    intros [[tk Htk] _]. exfalso.
    apply Hmem in Htk. rewrite Hsplit in Htk. exact Htk.
Qed.

Lemma tryAssignWaitingToken_outcome_witness :
  exists b db',
    tryAssignWaitingToken (fun l => l) 500 None
      (mkDb [waitingParcel; laterParcel] [counterOne] 3 2) = (Resolved b, db')
    /\ b = true.
Proof.
  destruct (tryAssignWaitingToken_outcome (fun l => l) 500 None
              (mkDb [waitingParcel; laterParcel] [counterOne] 3 2)
              (fun l => Permutation_refl l)) as [b [db' [H [_ [Hb _]]]]].
  exists b, db'. split; [exact H|]. apply Hb. split.
  - exists waitingParcel. split; [now left|reflexivity].
  - exists counterOne. split; [now left|reflexivity].
Defined.

(** ** Deleting a counter *)

Lemma deleteCounter_cases cid db :
  deleteCounter cid db =
  match servingTokens cid db with
  | _ :: _ => (Rejected (JsError "Cannot delete counter with active tokens"), db)
  | [] =>
      match find (hasCounterId cid) (counters db) with
      | None => (Rejected RecordNotFound, db)
      | Some c =>
          (Resolved tt,
           mkDb (updateWhere (refersTo cid) clearCounter (tokens db))
                (filter (fun x => negb (hasCounterId cid x)) (counters db))
                (nextTokenId db) (nextCounterId db))
      end
  end.
Proof.
  unfold deleteCounter, bind, token_count, throw, counter_delete, servingTokens, ret.
  destruct (filter (isServingOn cid) (tokens db)); simpl; [|reflexivity].
  destruct (find (hasCounterId cid) (counters db)); reflexivity.
Qed.

Lemma refersTo_updateWhere cid l tk :
  In tk (updateWhere (refersTo cid) clearCounter l) -> refersTo cid tk = false.
Proof.
  unfold updateWhere. rewrite in_map_iff. intros [x [Hx _]].
  destruct (refersTo cid x) eqn:E; subst tk; [reflexivity|exact E].
Qed.

(** X6. [deleteCounter] rejects with "Cannot delete counter with active
    tokens" while a [SERVING] token references the counter, and with
    record-not-found for an unknown id; in both cases nothing changes.
    Otherwise it removes the counter and no other, and leaves no token
    pointing at it: every token that referenced it has its [counterId]
    set to null and is otherwise as before. *)
Theorem deleteCounter_outcome (cid : Z) (db : Db) :
  (servingTokens cid db <> [] ->
     deleteCounter cid db =
     (Rejected (JsError "Cannot delete counter with active tokens"), db))
  /\ (servingTokens cid db = [] ->
      find (hasCounterId cid) (counters db) = None ->
      deleteCounter cid db = (Rejected RecordNotFound, db))
  /\ (servingTokens cid db = [] ->
      forall c, find (hasCounterId cid) (counters db) = Some c ->
        exists db',
          deleteCounter cid db = (Resolved tt, db')
          /\ (forall c', In c' (counters db') <->
                In c' (counters db) /\ Counter.id c' <> cid)
          /\ (forall tk, In tk (tokens db') -> Token.counterId tk <> Some cid)
          /\ tokens db' = updateWhere (refersTo cid) clearCounter (tokens db)
          /\ (forall tk, In tk (tokens db) -> Token.counterId tk <> Some cid ->
                In tk (tokens db'))).
Proof.
  rewrite deleteCounter_cases. split; [|split].
  - destruct (servingTokens cid db); [congruence|reflexivity].
  - now intros -> ->.
  - intros -> c ->. eexists. split; [reflexivity|]. simpl. split; [|split; [|split]].
    + intros c'. rewrite filter_In. unfold hasCounterId.
      rewrite negb_true_iff, Z.eqb_neq. tauto.
    + intros tk Hin Heq. apply refersTo_updateWhere in Hin.
      unfold refersTo in Hin. rewrite Heq, Z.eqb_refl in Hin. discriminate.
    + reflexivity.
    + intros tk Hin Hne. unfold updateWhere. apply in_map_iff. exists tk.
      split; [|exact Hin].
      unfold refersTo. destruct (Token.counterId tk) as [k|]; [|reflexivity].
      destruct (Z.eqb_spec k cid) as [->|_]; [congruence|reflexivity].
Qed.

Lemma deleteCounter_outcome_witness :
  deleteCounter 1 (mkDb [servingParcel] [counterOne] 2 2)
  = (Rejected (JsError "Cannot delete counter with active tokens"),
     mkDb [servingParcel] [counterOne] 2 2)
  /\ exists db',
       deleteCounter 1 (mkDb [completedParcel] [counterOne] 2 2)
       = (Resolved tt, db').
Proof.
  split.
  - apply (proj1 (deleteCounter_outcome 1 (mkDb [servingParcel] [counterOne] 2 2))).
    discriminate.
  - destruct (proj2 (proj2 (deleteCounter_outcome 1
                              (mkDb [completedParcel] [counterOne] 2 2)))
                eq_refl counterOne eq_refl) as [db' [H _]].
    now exists db'.
Defined.

(** ** Adding a counter *)

(** What [tryAssignWaitingToken] can do to the store, whatever the
    engine's order: nothing, or one [assignTokenToCounter]. *)
Lemma tryAssign_effect scan now cid db :
  exists b db',
    tryAssignWaitingToken scan now cid db = (Resolved b, db')
    /\ (db' = db
        \/ exists code k,
             existsb (hasCounterId k) (counters db) = true
             /\ db' =
                mkDb (updateWhere (hasTokenNumber code) (setServing k now)
                        (tokens db))
                     (counters db) (nextTokenId db) (nextCounterId db)).
Proof.
  unfold tryAssignWaitingToken, catchFalse, bind at 1, getNextToken.
  destruct (hd_error (orderByCreatedAt (filter isWaiting (scan (tokens db)))))
    as [tk|]; [|exists false, db; split; [reflexivity|now left]].
  assert (Hro : exists o,
    (match givenCounter cid with
     | Some k =>
         counter <- counter_findUnique_serving k ;;
         ret match counter with
             | Some (c, serving) =>
                 match Counter.status c, serving with
                 | ACTIVE, [] => Some c
                 | _, _ => None
                 end
             | None => None
             end
     | None =>
         availableCounters <- getAvailableCounters ;;
         ret (hd_error availableCounters)
     end) db = (Resolved o, db)).
  { destruct (givenCounter cid); eexists; reflexivity. }
  destruct Hro as [o Ho]. unfold bind at 1. rewrite Ho.
  destruct o as [c|]; [|exists false, db; split; [reflexivity|now left]].
  unfold bind, ret. rewrite assignTokenToCounter_cases.
  destruct (find (hasTokenNumber (Token.tokenNumber tk)) (tokens db));
    [|exists false, db; split; [reflexivity|now left]].
  destruct (existsb (hasCounterId (Counter.id c)) (counters db)) eqn:E;
    [|exists false, db; split; [reflexivity|now left]].
  eexists true, _. split; [reflexivity|]. right.
  exists (Token.tokenNumber tk), (Counter.id c). split; [exact E|reflexivity].
Qed.

Lemma tryAssign_keeps_counters scan now cid db :
  exists b db',
    tryAssignWaitingToken scan now cid db = (Resolved b, db')
    /\ counters db' = counters db
    /\ nextCounterId db' = nextCounterId db
    /\ nextTokenId db' = nextTokenId db.
Proof.
  destruct (tryAssign_effect scan now cid db)
    as [b [db' [H [->|[code [k [_ ->]]]]]]];
    exists b; eexists; (split; [exact H|]); repeat split.
Qed.

Lemma find_hasNumber_none n db :
  find (hasNumber n) (counters db) = None <-> ~ numberTaken n db.
Proof.
  rewrite find_none_iff. unfold numberTaken, hasNumber. split.
  - intros H [c [Hin Hn]]. specialize (H c Hin). rewrite Hn, Z.eqb_refl in H.
    discriminate.
  - intros H c Hin. destruct (Z.eqb_spec (Counter.number c) n) as [E|_];
      [|reflexivity].
    exfalso. apply H. now exists c.
Qed.

Lemma not_numberTaken_existsb n db :
  ~ numberTaken n db -> existsb (hasNumber n) (counters db) = false.
Proof.
  intros H. destruct (existsb (hasNumber n) (counters db)) eqn:E; [|reflexivity].
  exfalso. apply H. apply existsb_exists in E. destruct E as [c [Hin Hc]].
  exists c. split; [exact Hin|]. now apply Z.eqb_eq.
Qed.

(** The probe reads only: it stops at the first free number from
    [start] on, or runs out after [fuel] numbers all taken. *)
Lemma probeNumber_spec fuel : forall start db,
  exists r,
    probeNumber fuel start db = (Resolved r, db)
    /\ match r with
       | Some n => start <= n < start + Z.of_nat fuel
                   /\ ~ numberTaken n db
                   /\ forall m, start <= m < n -> numberTaken m db
       | None => forall m, start <= m < start + Z.of_nat fuel -> numberTaken m db
       end.
Proof.
  induction fuel as [|fuel IH]; intros start db.
  - exists None. split; [reflexivity|]. intros m Hm. lia.
  - cbn [probeNumber]. unfold bind, counter_findUnique_number, ret.
    destruct (find (hasNumber start) (counters db)) as [c|] eqn:Hf.
    + assert (Hhere : numberTaken start db).
      { apply find_some in Hf. destruct Hf as [Hin Hn]. exists c.
        split; [exact Hin|]. now apply Z.eqb_eq. }
      destruct (IH (start + 1) db) as [r [Hr Hspec]]. exists r.
      split; [exact Hr|]. destruct r as [n|].
      * destruct Hspec as [Hb [Hfree Hbelow]]. split; [lia|].
        split; [exact Hfree|]. intros m Hm.
        destruct (Z.eq_dec m start) as [->|Hne]; [exact Hhere|apply Hbelow; lia].
      * intros m Hm.
        destruct (Z.eq_dec m start) as [->|Hne]; [exact Hhere|apply Hspec; lia].
    + exists (Some start). split; [reflexivity|]. split; [lia|].
      split; [now apply find_hasNumber_none|]. intros m Hm. lia.
Qed.

Lemma finishAdd_free scan now chosen db :
  ~ numberTaken chosen db ->
  exists db',
    finishAdd scan now chosen db =
    (Resolved (Counter.mk (nextCounterId db) chosen ACTIVE now), db')
    /\ counters db' = counters db ++ [Counter.mk (nextCounterId db) chosen ACTIVE now]
    /\ nextCounterId db' = nextCounterId db + 1
    /\ db' = snd (tryAssignWaitingToken scan now (Some (nextCounterId db))
                    (mkDb (tokens db)
                       (counters db ++
                          [Counter.mk (nextCounterId db) chosen ACTIVE now])
                       (nextTokenId db) (nextCounterId db + 1))).
Proof.
  intros Hfree. unfold finishAdd, bind at 1, counter_create.
  rewrite (not_numberTaken_existsb _ _ Hfree). cbn [Counter.id].
  set (db1 := mkDb _ _ _ _).
  destruct (tryAssign_keeps_counters scan now (Some (nextCounterId db)) db1)
    as [b [db' [H [Hc [Hn _]]]]].
  unfold bind, ret. rewrite H. exists db'. split; [reflexivity|].
  split; [exact Hc|]. split; [exact Hn|reflexivity].
Qed.

Lemma addCounter_cases scan testEnv now n db :
  addCounter scan testEnv now n db =
  match find (hasNumber n) (counters db) with
  | None => finishAdd scan now n db
  | Some _ =>
      if testEnv then
        match fst (probeNumber maxProbes n db) with
        | Resolved (Some m) => finishAdd scan now m db
        | _ =>
            (Rejected (JsError (String.append
               "Unable to find available counter number starting from "
               (showZ n))), db)
        end
      else
        (Rejected (JsError (String.append "Counter "
                    (String.append (showZ n) " already exists"))), db)
  end.
Proof.
  unfold addCounter, bind at 1, counter_findUnique_number.
  destruct (find (hasNumber n) (counters db)) as [c|]; [|reflexivity].
  destruct testEnv; [|reflexivity].
  destruct (probeNumber_spec maxProbes n db) as [r [Hr _]].
  unfold bind at 1. unfold bind at 1. rewrite Hr. cbn [fst].
  destruct r as [m|]; reflexivity.
Qed.






(** ** The constraints of the schema are kept *)

Lemma map_updateWhere_same {A B} (g : A -> B) (p : A -> bool) (f : A -> A) l :
  (forall x, g (f x) = g x) -> map g (updateWhere p f l) = map g l.
Proof.
  intros H. unfold updateWhere. rewrite map_map. apply map_ext.
  intros x. destruct (p x); [apply H|reflexivity].
Qed.

Lemma existsb_hasCounterId_setStatus k cid s l :
  existsb (hasCounterId k) (updateWhere (hasCounterId cid) (setStatus s) l)
  = existsb (hasCounterId k) l.
Proof.
  induction l as [|c l IH]; simpl; [reflexivity|].
  rewrite IH. destruct (hasCounterId cid c); reflexivity.
Qed.

Lemma fk_ok_ext cs cs' tk :
  (forall k, existsb (hasCounterId k) cs = true ->
             existsb (hasCounterId k) cs' = true) ->
  fk_ok cs tk = true -> fk_ok cs' tk = true.
Proof.
  unfold fk_ok. destruct (Token.counterId tk); [|reflexivity]. intros H. apply H.
Qed.

Lemma NoDup_map_filter {A B} (g : A -> B) (p : A -> bool) l :
  NoDup (map g l) -> NoDup (map g (filter p l)).
Proof.
  induction l as [|a l IH]; simpl; intros H; [constructor|].
  inversion H as [|? ? Hn Hl]; subst.
  destruct (p a); simpl; [|now apply IH].
  constructor; [|now apply IH].
  intros Hin. apply Hn. apply in_map_iff in Hin. destruct Hin as [x [Hx Hin]].
  apply in_map_iff. exists x. split; [exact Hx|].
  apply filter_In in Hin. tauto.
Qed.

Lemma not_taken_not_In code db :
  ~ taken code db -> ~ In code (map Token.tokenNumber (tokens db)).
Proof.
  intros H Hin. apply H. apply in_map_iff in Hin. destruct Hin as [x [Hx Hin]].
  unfold taken. intros Hnone. rewrite find_none_iff in Hnone.
  specialize (Hnone x Hin). unfold hasTokenNumber in Hnone.
  rewrite Hx, String.eqb_refl in Hnone. discriminate.
Qed.

Lemma NoDup_snoc {A} (l : list A) x : NoDup l -> ~ In x l -> NoDup (l ++ [x]).
Proof.
  intros Hl Hx. apply NoDup_app; [exact Hl|constructor; [intros []|constructor]|].
  intros a Ha [<-|[]]. exact (Hx Ha).
Qed.

(** A token update that keeps the number and respects the foreign key. *)
Lemma schema_token_update db p data :
  schemaHolds db ->
  (forall x, Token.tokenNumber (data x) = Token.tokenNumber x) ->
  (forall x, fk_ok (counters db) (data x) = true) ->
  schemaHolds (mkDb (updateWhere p data (tokens db)) (counters db)
                    (nextTokenId db) (nextCounterId db)).
Proof.
  intros [Hn [Hi [Hnum [Hseq Hfk]]]] Hkeep Hdata.
  unfold schemaHolds. simpl. rewrite (map_updateWhere_same _ _ _ _ Hkeep).
  repeat (split; [assumption|]).
  intros tk Hin. unfold updateWhere in Hin. apply in_map_iff in Hin.
  destruct Hin as [x [<- Hx]]. destruct (p x); [apply Hdata|now apply Hfk].
Qed.

Lemma schema_counter_status db cid s :
  schemaHolds db ->
  schemaHolds (mkDb (tokens db)
                    (updateWhere (hasCounterId cid) (setStatus s) (counters db))
                    (nextTokenId db) (nextCounterId db)).
Proof.
  intros [Hn [Hi [Hnum [Hseq Hfk]]]]. unfold schemaHolds. simpl.
  rewrite !map_updateWhere_same by reflexivity.
  repeat (split; [assumption|]). split.
  - intros c Hin. unfold updateWhere in Hin. apply in_map_iff in Hin.
    destruct Hin as [x [<- Hx]]. specialize (Hseq x Hx).
    destruct (hasCounterId cid x); exact Hseq.
  - intros tk Hin. apply (fk_ok_ext (counters db)); [|now apply Hfk].
    intros k Hk. now rewrite existsb_hasCounterId_setStatus.
Qed.

Lemma schema_generateToken tz now st db :
  schemaHolds db -> schemaHolds (snd (generateToken tz now st db)).
Proof.
  intros S.
  destruct (generateToken_outcome tz now st db)
    as [[j [d [_ [Hfree [_ [-> _]]]]]]|[_ ->]]; simpl; [|exact S].
  destruct S as [Hn [Hi [Hnum [Hseq Hfk]]]]. unfold schemaHolds. simpl.
  rewrite map_app. simpl.
  split; [apply NoDup_snoc; [exact Hn|now apply not_taken_not_In]|].
  repeat (split; [assumption|]).
  intros tk Hin. apply in_app_or in Hin. destruct Hin as [Hin|[<-|[]]];
    [now apply Hfk|reflexivity].
Qed.

Lemma schema_assign now code cid db :
  schemaHolds db ->
  existsb (hasCounterId cid) (counters db) = true ->
  schemaHolds (mkDb (updateWhere (hasTokenNumber code) (setServing cid now)
                       (tokens db))
                    (counters db) (nextTokenId db) (nextCounterId db)).
Proof.
  intros S E. apply schema_token_update; [exact S|reflexivity|].
  intros x. exact E.
Qed.

Lemma schema_tryAssign scan now cid db :
  schemaHolds db -> schemaHolds (snd (tryAssignWaitingToken scan now cid db)).
Proof.
  intros S. destruct (tryAssign_effect scan now cid db)
    as [b [db' [H [->|[code [k [E ->]]]]]]]; rewrite H; simpl;
    [exact S|now apply schema_assign].
Qed.

Lemma schema_finishAdd scan now chosen db :
  schemaHolds db -> ~ numberTaken chosen db ->
  schemaHolds (snd (finishAdd scan now chosen db)).
Proof.
  intros S Hfree.
  destruct (finishAdd_free scan now chosen db Hfree) as [db' [H [_ [_ ->]]]].
  rewrite H. cbn [snd]. apply schema_tryAssign.
  destruct S as [Hn [Hi [Hnum [Hseq Hfk]]]]. unfold schemaHolds. simpl.
  rewrite !map_app. simpl. split; [exact Hn|]. split; [|split; [|split]].
  - apply NoDup_snoc; [exact Hi|]. intros Hin. apply in_map_iff in Hin.
    destruct Hin as [c [Hc Hin]]. specialize (Hseq c Hin). lia.
  - apply NoDup_snoc; [exact Hnum|]. intros Hin. apply in_map_iff in Hin.
    destruct Hin as [c [Hc Hin]]. apply Hfree. now exists c.
  - intros c Hin. apply in_app_or in Hin. destruct Hin as [Hin|[<-|[]]];
      [specialize (Hseq c Hin); lia|simpl; lia].
  - intros tk Hin. apply (fk_ok_ext (counters db)); [|now apply Hfk].
    intros k Hk. rewrite existsb_app, Hk. reflexivity.
Qed.

Lemma schema_addCounter scan testEnv now n db :
  schemaHolds db -> schemaHolds (snd (addCounter scan testEnv now n db)).
Proof.
  intros S. rewrite addCounter_cases.
  destruct (find (hasNumber n) (counters db)) eqn:E.
  - destruct testEnv; [|exact S].
    destruct (probeNumber_spec maxProbes n db) as [r [Hr Hspec]].
    rewrite Hr. cbn [fst]. destruct r as [m|]; [|exact S].
    apply schema_finishAdd; [exact S|tauto].
  - apply schema_finishAdd; [exact S|now apply find_hasNumber_none].
Qed.

Lemma activateCounter_cases scan now cid db :
  activateCounter scan now cid db =
  match find (hasCounterId cid) (counters db) with
  | None => (Rejected RecordNotFound, db)
  | Some c =>
      (Resolved (setStatus ACTIVE c),
       snd (tryAssignWaitingToken scan now (Some cid)
              (mkDb (tokens db)
                 (updateWhere (hasCounterId cid) (setStatus ACTIVE) (counters db))
                 (nextTokenId db) (nextCounterId db))))
  end.
Proof.
  unfold activateCounter, bind at 1, counter_update.
  destruct (find (hasCounterId cid) (counters db)) as [c|]; [|reflexivity].
  set (db1 := mkDb _ _ _ _).
  destruct (tryAssign_keeps_counters scan now (Some cid) db1)
    as [b [db' [H _]]].
  unfold bind, ret. now rewrite H.
Qed.

Lemma schema_deleteCounter cid db :
  schemaHolds db -> schemaHolds (snd (deleteCounter cid db)).
Proof.
  intros S. rewrite deleteCounter_cases.
  destruct (servingTokens cid db); [|exact S].
  destruct (find (hasCounterId cid) (counters db)); [|exact S].
  destruct S as [Hn [Hi [Hnum [Hseq Hfk]]]]. unfold schemaHolds. simpl.
  rewrite (map_updateWhere_same Token.tokenNumber) by reflexivity.
  split; [exact Hn|]. split; [now apply NoDup_map_filter|].
  split; [now apply NoDup_map_filter|]. split.
  - intros c Hin. apply filter_In in Hin. apply Hseq. tauto.
  - intros tk Hin. unfold updateWhere in Hin. apply in_map_iff in Hin.
    destruct Hin as [x [<- Hx]]. destruct (refersTo cid x) eqn:R; [reflexivity|].
    specialize (Hfk x Hx). unfold fk_ok in *. unfold refersTo in R.
    destruct (Token.counterId x) as [k|]; [|reflexivity].
    apply existsb_exists in Hfk. destruct Hfk as [c [Hc Hk]].
    apply existsb_exists. exists c. split; [|exact Hk].
    apply filter_In. split; [exact Hc|].
    unfold hasCounterId in *. apply Z.eqb_eq in Hk. rewrite Hk.
    now rewrite R.
Qed.

Lemma schema_serve scan r db :
  schemaHolds db -> schemaHolds (serve scan r db).
Proof.
  intros S. destruct r; simpl.
  - now apply schema_generateToken.
  - rewrite assignTokenToCounter_cases.
    destruct (find (hasTokenNumber tokenNumber) (tokens db)); [|exact S].
    destruct (existsb (hasCounterId counterId) (counters db)) eqn:E; [|exact S].
    now apply schema_assign.
  - rewrite assignCounter_cases.
    destruct (find (hasCounterId counterId) (counters db)) as [c|] eqn:Hc;
      [|exact S].
    destruct (Counter.status c); [|exact S].
    destruct (servingTokens counterId db); [|exact S].
    destruct (find (hasTokenNumber tokenNumber) (tokens db)); [|exact S].
    apply schema_assign; [exact S|exact (find_existsb _ _ _ Hc)].
  - rewrite completeToken_cases.
    destruct (find (hasTokenNumber tokenNumber) (tokens db)); [|exact S].
    now apply schema_token_update.
  - now apply schema_tryAssign.
  - now apply schema_addCounter.
  - rewrite activateCounter_cases.
    destruct (find (hasCounterId counterId) (counters db)); [|exact S].
    cbn [snd]. apply schema_tryAssign. now apply schema_counter_status.
  - rewrite deactivateCounter_cases.
    destruct (servingTokens counterId db); [|exact S].
    destruct (find (hasCounterId counterId) (counters db)); [|exact S].
    now apply schema_counter_status.
  - now apply schema_deleteCounter.
Qed.

(** X9. Whatever requests the services receive, in whatever order, and
    whether they resolve or reject, a store that satisfies the schema
    keeps satisfying it: display codes stay pairwise distinct, counter
    ids and counter numbers stay pairwise distinct, and every token's
    [counterId] is null or the id of a counter that exists. *)
Theorem services_keep_schema
  (scan : list Token.t -> list Token.t) (rs : list Request) (db : Db) :
  schemaHolds db -> schemaHolds (serveAll scan rs db).
Proof.
  unfold serveAll. revert db.
  induction rs as [|r rs IH]; intros db S; simpl; [exact S|].
  apply IH. now apply schema_serve.
Qed.

Lemma services_keep_schema_witness :
  schemaHolds
    (serveAll (fun l => l)
       [ReqAddCounter false 10 1; ReqGenerateToken 0 20 "Parcel Drop-off";
        ReqTryAssign 30 None; ReqCompleteToken 40 "P-001"; ReqDeleteCounter 1]
       (mkDb [] [] 1 1)).
Proof.
  apply services_keep_schema. unfold schemaHolds. simpl.
  repeat split; try constructor; intros ? [].
Defined.

(** ** The token invariants, over every request *)

Lemma updateWhere_keeps_any (p : Token.t -> bool) data l :
  (forall tk, tokenInvariant (data tk)) ->
  Forall tokenInvariant l ->
  Forall tokenInvariant (updateWhere p data l).
Proof.
  intros Hd Inv. unfold updateWhere. apply Forall_map.
  apply Forall_impl with (2 := Inv). intros tk Htk.
  destruct (p tk); [apply Hd|exact Htk].
Qed.

Lemma clearCounter_invariant tk : tokenInvariant (clearCounter tk).
Proof. split; simpl; [congruence|reflexivity]. Qed.

Lemma tryAssign_keeps_tokens scan now cid db :
  Forall tokenInvariant (tokens db) ->
  Forall tokenInvariant (tokens (snd (tryAssignWaitingToken scan now cid db))).
Proof.
  intros Inv. destruct (tryAssign_effect scan now cid db)
    as [b [db' [H [->|[code [k [_ ->]]]]]]]; rewrite H; simpl; [exact Inv|].
  apply updateWhere_keeps_any; [apply setServing_invariant|exact Inv].
Qed.

Lemma finishAdd_keeps_tokens scan now chosen db :
  ~ numberTaken chosen db ->
  Forall tokenInvariant (tokens db) ->
  Forall tokenInvariant (tokens (snd (finishAdd scan now chosen db))).
Proof.
  intros Hfree Inv.
  destruct (finishAdd_free scan now chosen db Hfree) as [db' [H [_ [_ ->]]]].
  rewrite H. cbn [snd]. now apply tryAssign_keeps_tokens.
Qed.

Lemma serve_keeps_tokens scan r db :
  Forall tokenInvariant (tokens db) ->
  Forall tokenInvariant (tokens (serve scan r db)).
Proof.
  intros Inv. destruct r; simpl.
  - now apply generateToken_keeps.
  - rewrite assignTokenToCounter_cases.
    destruct (find (hasTokenNumber tokenNumber) (tokens db)); [|exact Inv].
    destruct (existsb (hasCounterId counterId) (counters db)); [|exact Inv].
    simpl. apply updateWhere_keeps_any; [apply setServing_invariant|exact Inv].
  - rewrite assignCounter_cases.
    destruct (find (hasCounterId counterId) (counters db)) as [c|]; [|exact Inv].
    destruct (Counter.status c); [|exact Inv].
    destruct (servingTokens counterId db); [|exact Inv].
    destruct (find (hasTokenNumber tokenNumber) (tokens db)); [|exact Inv].
    simpl. apply updateWhere_keeps_any; [apply setServing_invariant|exact Inv].
  - rewrite completeToken_cases.
    destruct (find (hasTokenNumber tokenNumber) (tokens db)); [|exact Inv].
    simpl. apply updateWhere_keeps_any; [apply setCompleted_invariant|exact Inv].
  - now apply tryAssign_keeps_tokens.
  - rewrite addCounter_cases.
    destruct (find (hasNumber number) (counters db)) eqn:E.
    + destruct testEnv; [|exact Inv].
      destruct (probeNumber_spec maxProbes number db) as [r [Hr Hspec]].
      rewrite Hr. cbn [fst]. destruct r as [m|]; [|exact Inv].
      apply finishAdd_keeps_tokens; [tauto|exact Inv].
    + apply finishAdd_keeps_tokens; [now apply find_hasNumber_none|exact Inv].
  - rewrite activateCounter_cases.
    destruct (find (hasCounterId counterId) (counters db)); [|exact Inv].
    cbn [snd]. now apply tryAssign_keeps_tokens.
  - rewrite deactivateCounter_cases.
    destruct (servingTokens counterId db); [|exact Inv].
    destruct (find (hasCounterId counterId) (counters db)); exact Inv.
  - rewrite deleteCounter_cases.
    destruct (servingTokens counterId db); [|exact Inv].
    destruct (find (hasCounterId counterId) (counters db)); [|exact Inv].
    simpl. apply updateWhere_keeps_any; [apply clearCounter_invariant|exact Inv].
Qed.

(** X10. The two token invariants survive the whole service layer, the
    counter service included: after any sequence of requests (token
    generation, both assignments, completion, automatic assignment, and
    adding, activating, deactivating or deleting counters), every token
    with a non-null [counterId] is [SERVING] and no [COMPLETED] token
    has a [counterId], provided this held before. *)
Theorem services_keep_token_invariants
  (scan : list Token.t -> list Token.t) (rs : list Request) (db : Db) :
  Forall tokenInvariant (tokens db) ->
  Forall tokenInvariant (tokens (serveAll scan rs db)).
Proof.
  unfold serveAll. revert db.
  induction rs as [|r rs IH]; intros db Inv; simpl; [exact Inv|].
  apply IH. now apply serve_keeps_tokens.
Qed.

Lemma services_keep_token_invariants_witness :
  Forall tokenInvariant
    (tokens (serveAll (fun l => l)
               [ReqGenerateToken 0 20 "Parcel Drop-off"; ReqAddCounter false 30 1;
                ReqDeleteCounter 1]
               (mkDb [] [] 1 1))).
Proof.
  apply services_keep_token_invariants. constructor.
Defined.

(** ** One token per counter, none on an inactive one *)

Lemma NoDup_map_eq {A B} (g : A -> B) l a b :
  NoDup (map g l) -> In a l -> In b l -> g a = g b -> a = b.
Proof.
  induction l as [|x l IH]; simpl; intros H Ha Hb E; [contradiction|].
  inversion H as [|? ? Hn Hl]; subst.
  destruct Ha as [->|Ha], Hb as [->|Hb]; [reflexivity| | |now apply IH].
  - exfalso. apply Hn. rewrite E. now apply in_map.
  - exfalso. apply Hn. rewrite <- E. now apply in_map.
Qed.

Lemma unique_number_rows code l :
  NoDup (map Token.tokenNumber l) ->
  (List.length (filter (hasTokenNumber code) l) <= 1)%nat.
Proof.
  induction l as [|a l IH]; simpl; intros H; [lia|].
  inversion H as [|? ? Hn Hl]; subst. specialize (IH Hl).
  destruct (hasTokenNumber code a) eqn:E; [|exact IH].
  simpl. assert (filter (hasTokenNumber code) l = []) as ->; [|simpl; lia].
  destruct (filter (hasTokenNumber code) l) as [|b rest] eqn:F; [reflexivity|].
  exfalso. assert (Hb : In b (filter (hasTokenNumber code) l))
    by (rewrite F; now left).
  apply filter_In in Hb. destruct Hb as [Hb Hcb]. apply Hn.
  unfold hasTokenNumber in *. apply String.eqb_eq in E, Hcb.
  rewrite E, <- Hcb. now apply in_map.
Qed.

Lemma serving_after_assign_here code cid now l :
  filter (isServingOn cid) l = [] ->
  List.length (filter (isServingOn cid)
                 (updateWhere (hasTokenNumber code) (setServing cid now) l))
  = List.length (filter (hasTokenNumber code) l).
Proof.
  induction l as [|a l IH]; simpl; intros H; [reflexivity|].
  destruct (isServingOn cid a) eqn:Es; [discriminate|].
  destruct (hasTokenNumber code a) eqn:E.
  - unfold isServingOn at 1. simpl. rewrite Z.eqb_refl. simpl. now rewrite IH.
  - rewrite Es. now apply IH.
Qed.

Lemma serving_after_assign_elsewhere code cid cid' now l :
  cid' <> cid ->
  (List.length (filter (isServingOn cid')
                  (updateWhere (hasTokenNumber code) (setServing cid now) l))
   <= List.length (filter (isServingOn cid') l))%nat.
Proof.
  intros Hne. apply filter_updateWhere_le. intros x _.
  unfold isServingOn. simpl.
  destruct (Z.eqb_spec cid cid') as [E|_]; [congruence|reflexivity].
Qed.

Lemma discipline_assign now code c db :
  counterDiscipline db ->
  In c (counters db) -> isAvailable db c = true ->
  counterDiscipline
    (mkDb (updateWhere (hasTokenNumber code) (setServing (Counter.id c) now)
             (tokens db))
          (counters db) (nextTokenId db) (nextCounterId db)).
Proof.
  intros [S [Hno Hone]] Hin Ha.
  apply isAvailable_iff in Ha. destruct Ha as [Hst Hfree].
  split; [apply schema_assign; [exact S|now apply In_existsb_hasCounterId]|].
  destruct S as [Hn [Hi _]]. split.
  - intros c' Hc' Hinact. unfold servingTokens. simpl in *.
    destruct (Z.eq_dec (Counter.id c') (Counter.id c)) as [E|Hne].
    + rewrite (NoDup_map_eq Counter.id _ c' c Hi Hc' Hin E) in Hinact. congruence.
    + apply length_zero_iff_nil.
      pose proof (serving_after_assign_elsewhere code (Counter.id c)
                    (Counter.id c') now (tokens db) Hne) as Hle.
      specialize (Hno c' Hc' Hinact). unfold servingTokens in Hno.
      rewrite Hno in Hle. simpl in Hle. lia.
  - intros cid'. unfold servingTokens. simpl.
    destruct (Z.eq_dec cid' (Counter.id c)) as [->|Hne].
    + rewrite serving_after_assign_here by exact Hfree.
      now apply unique_number_rows.
    + pose proof (serving_after_assign_elsewhere code (Counter.id c) cid' now
                    (tokens db) Hne) as Hle.
      specialize (Hone cid'). unfold servingTokens in Hone. lia.
Qed.

Lemma discipline_tokens_rewritten p data db :
  (forall x, Token.tokenNumber (data x) = Token.tokenNumber x) ->
  (forall x, Token.counterId (data x) = None) ->
  counterDiscipline db ->
  schemaHolds (mkDb (updateWhere p data (tokens db)) (counters db)
                 (nextTokenId db) (nextCounterId db))
  /\ noInactiveServing (mkDb (updateWhere p data (tokens db)) (counters db)
                          (nextTokenId db) (nextCounterId db))
  /\ oneTokenPerCounter (mkDb (updateWhere p data (tokens db)) (counters db)
                           (nextTokenId db) (nextCounterId db)).
Proof.
  intros Hkeep Hnull [S [Hno Hone]].
  assert (Hle : forall cid,
            (List.length (filter (isServingOn cid) (updateWhere p data (tokens db)))
             <= List.length (filter (isServingOn cid) (tokens db)))%nat).
  { intros cid. apply filter_updateWhere_le. intros x _.
    unfold isServingOn. now rewrite Hnull. }
  split; [|split].
  - apply schema_token_update; [exact S|exact Hkeep|].
    intros x. unfold fk_ok. now rewrite Hnull.
  - intros c Hc Hinact. unfold servingTokens. simpl in *.
    apply length_zero_iff_nil. specialize (Hle (Counter.id c)).
    specialize (Hno c Hc Hinact). unfold servingTokens in Hno.
    rewrite Hno in Hle. simpl in Hle. lia.
  - intros cid. unfold servingTokens. simpl.
    specialize (Hle cid). specialize (Hone cid). unfold servingTokens in Hone. lia.
Qed.

(** The choice of [tryAssignWaitingToken] read off the store. *)
Lemma chosen_is_chooseCounter cid db :
  (match givenCounter cid with
   | Some k =>
       counter <- counter_findUnique_serving k ;;
       ret match counter with
           | Some (c, serving) =>
               match Counter.status c, serving with
               | ACTIVE, [] => Some c
               | _, _ => None
               end
           | None => None
           end
   | None =>
       availableCounters <- getAvailableCounters ;;
       ret (hd_error availableCounters)
   end) db = (Resolved (chooseCounter cid db), db).
Proof.
  unfold chooseCounter. destruct (givenCounter cid) as [k|]; [|reflexivity].
  unfold bind, counter_findUnique_serving, ret.
  destruct (find (hasCounterId k) (counters db)) as [c|]; [|reflexivity].
  simpl. unfold isAvailable.
  destruct (Counter.status c), (servingTokens (Counter.id c) db); reflexivity.
Qed.

Lemma tryAssign_effect_available scan now cid db :
  exists b db',
    tryAssignWaitingToken scan now cid db = (Resolved b, db')
    /\ (db' = db
        \/ exists code c,
             In c (counters db) /\ isAvailable db c = true
             /\ db' =
                mkDb (updateWhere (hasTokenNumber code)
                        (setServing (Counter.id c) now) (tokens db))
                     (counters db) (nextTokenId db) (nextCounterId db)).
Proof.
  unfold tryAssignWaitingToken, catchFalse, bind at 1, getNextToken.
  destruct (hd_error (orderByCreatedAt (filter isWaiting (scan (tokens db)))))
    as [tk|]; [|exists false, db; split; [reflexivity|now left]].
  unfold bind at 1. rewrite chosen_is_chooseCounter.
  destruct (chooseCounter cid db) as [c|] eqn:Hc;
    [|exists false, db; split; [reflexivity|now left]].
  destruct (chooseCounter_some _ _ _ Hc) as [Hin [Ha _]].
  unfold bind, ret. rewrite assignTokenToCounter_cases.
  destruct (find (hasTokenNumber (Token.tokenNumber tk)) (tokens db));
    [|exists false, db; split; [reflexivity|now left]].
  rewrite (In_existsb_hasCounterId c _ Hin).
  eexists true, _. split; [reflexivity|]. right.
  exists (Token.tokenNumber tk), c. now repeat split.
Qed.

Lemma discipline_tryAssign scan now cid db :
  counterDiscipline db ->
  counterDiscipline (snd (tryAssignWaitingToken scan now cid db)).
Proof.
  intros D. destruct (tryAssign_effect_available scan now cid db)
    as [b [db' [H [->|[code [c [Hin [Ha ->]]]]]]]]; rewrite H; cbn [snd];
    [exact D|now apply discipline_assign].
Qed.

Lemma discipline_counters_changed db cs' nC :
  counterDiscipline db ->
  schemaHolds (mkDb (tokens db) cs' (nextTokenId db) nC) ->
  (forall c, In c cs' -> Counter.status c = INACTIVE ->
     servingTokens (Counter.id c) db = []) ->
  counterDiscipline (mkDb (tokens db) cs' (nextTokenId db) nC).
Proof.
  intros [_ [_ Hone]] S Hno. split; [exact S|]. split.
  - intros c Hc Hinact. exact (Hno c Hc Hinact).
  - intros cid. exact (Hone cid).
Qed.

Lemma discipline_finishAdd scan now chosen db :
  counterDiscipline db -> ~ numberTaken chosen db ->
  counterDiscipline (snd (finishAdd scan now chosen db)).
Proof.
  intros D Hfree.
  pose proof (schema_finishAdd scan now chosen db (proj1 D) Hfree) as _.
  destruct (finishAdd_free scan now chosen db Hfree) as [db' [H [_ [_ ->]]]].
  rewrite H. cbn [snd]. apply discipline_tryAssign.
  apply (discipline_counters_changed db); [exact D| |].
  - destruct D as [[Hn [Hi [Hnum [Hseq Hfk]]]] _]. unfold schemaHolds. simpl.
    rewrite !map_app. simpl. split; [exact Hn|]. split; [|split; [|split]].
    + apply NoDup_snoc; [exact Hi|]. intros Hin. apply in_map_iff in Hin.
      destruct Hin as [c [Hc Hin]]. specialize (Hseq c Hin). lia.
    + apply NoDup_snoc; [exact Hnum|]. intros Hin. apply in_map_iff in Hin.
      destruct Hin as [c [Hc Hin]]. apply Hfree. now exists c.
    + intros c Hin. apply in_app_or in Hin. destruct Hin as [Hin|[<-|[]]];
        [specialize (Hseq c Hin); lia|simpl; lia].
    + intros tk Hin. apply (fk_ok_ext (counters db)); [|now apply Hfk].
      intros k Hk. rewrite existsb_app, Hk. reflexivity.
  - intros c Hin Hinact. apply in_app_or in Hin.
    destruct Hin as [Hin|[<-|[]]]; [|discriminate Hinact].
    destruct D as [_ [Hno _]]. exact (Hno c Hin Hinact).
Qed.

Lemma discipline_serve scan r db :
  guarded r = true ->
  counterDiscipline db -> counterDiscipline (serve scan r db).
Proof.
  intros G D. destruct r; simpl; try discriminate G.
  - destruct (generateToken_outcome tz now serviceType db)
      as [[j [d [_ [_ [_ [Hg _]]]]]]|[_ ->]]; [|exact D].
    pose proof (schema_generateToken tz now serviceType db (proj1 D)) as S.
    rewrite Hg in *. cbn [snd] in *. destruct D as [_ [Hno Hone]].
    assert (Hsame : forall cid,
              servingTokens cid
                (mkDb (tokens db ++
                         [newToken db now
                            (formatTokenNumber (getServicePrefix serviceType)
                               (todayCount tz now serviceType db + j + 1))
                            serviceType])
                      (counters db) (nextTokenId db + 1) (nextCounterId db))
              = servingTokens cid db).
    { intros cid. unfold servingTokens. simpl. rewrite filter_app. simpl.
      apply app_nil_r. }
    split; [exact S|]. split.
    + intros c Hc Hinact. rewrite Hsame. exact (Hno c Hc Hinact).
    + intros cid. rewrite Hsame. exact (Hone cid).
  - rewrite assignCounter_cases.
    destruct (find (hasCounterId counterId) (counters db)) as [c|] eqn:Hc;
      [|exact D].
    destruct (Counter.status c) eqn:Hst; [|exact D].
    destruct (servingTokens counterId db) eqn:Hs; [|exact D].
    destruct (find (hasTokenNumber tokenNumber) (tokens db)); [|exact D].
    cbn [snd]. destruct (find_hasCounterId _ _ _ Hc) as [Hin Hid]. subst counterId.
    apply discipline_assign; [exact D|exact Hin|].
    apply isAvailable_iff. now split.
  - rewrite completeToken_cases.
    destruct (find (hasTokenNumber tokenNumber) (tokens db)); [|exact D].
    cbn [snd]. now apply discipline_tokens_rewritten.
  - now apply discipline_tryAssign.
  - rewrite addCounter_cases.
    destruct (find (hasNumber number) (counters db)) eqn:E.
    + destruct testEnv; [|exact D].
      destruct (probeNumber_spec maxProbes number db) as [r [Hr Hspec]].
      rewrite Hr. cbn [fst]. destruct r as [m|]; [|exact D].
      apply discipline_finishAdd; [exact D|tauto].
    + apply discipline_finishAdd; [exact D|now apply find_hasNumber_none].
  - rewrite activateCounter_cases.
    destruct (find (hasCounterId counterId) (counters db)); [|exact D].
    cbn [snd]. apply discipline_tryAssign.
    apply (discipline_counters_changed db);
      [exact D|apply schema_counter_status; exact (proj1 D)|].
    intros c Hin Hinact. unfold updateWhere in Hin. apply in_map_iff in Hin.
    destruct Hin as [x [Hx Hin]]. destruct (hasCounterId counterId x).
    + subst c. discriminate Hinact.
    + subst c. destruct D as [_ [Hno _]]. exact (Hno x Hin Hinact).
  - rewrite deactivateCounter_cases.
    destruct (servingTokens counterId db) eqn:Hs; [|exact D].
    destruct (find (hasCounterId counterId) (counters db)); [|exact D].
    cbn [snd]. apply (discipline_counters_changed db);
      [exact D|apply schema_counter_status; exact (proj1 D)|].
    intros c Hin Hinact. unfold updateWhere in Hin. apply in_map_iff in Hin.
    destruct Hin as [x [Hx Hin]]. destruct (hasCounterId counterId x) eqn:Hk.
    + subst c. simpl. apply Z.eqb_eq in Hk. rewrite Hk. exact Hs.
    + subst c. destruct D as [_ [Hno _]]. exact (Hno x Hin Hinact).
  - pose proof (schema_deleteCounter counterId db (proj1 D)) as S.
    rewrite deleteCounter_cases in *.
    destruct (servingTokens counterId db); [|exact D].
    destruct (find (hasCounterId counterId) (counters db)); [|exact D].
    cbn [snd] in *. destruct D as [S0 [Hno Hone]].
    assert (Hle : forall cid,
              (List.length (filter (isServingOn cid)
                              (updateWhere (refersTo counterId) clearCounter
                                 (tokens db)))
               <= List.length (filter (isServingOn cid) (tokens db)))%nat).
    { intros cid. apply filter_updateWhere_le. intros x _. reflexivity. }
    split; [exact S|]. split.
    + intros c Hc Hinact. simpl in Hc. apply filter_In in Hc.
      destruct Hc as [Hc _]. unfold servingTokens. simpl.
      apply length_zero_iff_nil. specialize (Hle (Counter.id c)).
      specialize (Hno c Hc Hinact). unfold servingTokens in Hno.
      rewrite Hno in Hle. simpl in Hle. lia.
    + intros cid. unfold servingTokens. simpl. specialize (Hle cid).
      specialize (Hone cid). unfold servingTokens in Hone. lia.
Qed.

(** X11. As long as assignments go through the counter service
    ([assignCounter], [tryAssignWaitingToken], and the automatic
    assignment of [addCounter] and [activateCounter]), a store that
    satisfies the schema keeps two facts through any sequence of
    requests: no counter has more than one [SERVING] token, and no
    [INACTIVE] counter has any. *)
Theorem guarded_requests_keep_counters_exclusive
  (scan : list Token.t -> list Token.t) (rs : list Request) (db : Db) :
  forallb guarded rs = true ->
  schemaHolds db -> noInactiveServing db -> oneTokenPerCounter db ->
  noInactiveServing (serveAll scan rs db)
  /\ oneTokenPerCounter (serveAll scan rs db).
Proof.
  intros G S Hno Hone.
  assert (D : counterDiscipline (serveAll scan rs db)).
  { assert (D0 : counterDiscipline db) by (split; [|split]; assumption).
    clear S Hno Hone. unfold serveAll. revert db D0.
    induction rs as [|r rs IH]; intros db D0; simpl; [exact D0|].
    simpl in G. apply andb_true_iff in G. destruct G as [Gr Grs].
    apply IH; [exact Grs|]. now apply discipline_serve. }
  destruct D as [_ [H1 H2]]. now split.
Qed.

Lemma guarded_requests_keep_counters_exclusive_witness :
  oneTokenPerCounter
    (serveAll (fun l => l)
       [ReqAddCounter false 10 1; ReqGenerateToken 0 20 "Parcel Drop-off";
        ReqGenerateToken 0 25 "Parcel Drop-off"; ReqTryAssign 30 None;
        ReqAssignCounter 35 1 "P-002"]
       (mkDb [] [] 1 1)).
Proof.
  apply (guarded_requests_keep_counters_exclusive (fun l => l)
           [ReqAddCounter false 10 1; ReqGenerateToken 0 20 "Parcel Drop-off";
            ReqGenerateToken 0 25 "Parcel Drop-off"; ReqTryAssign 30 None;
            ReqAssignCounter 35 1 "P-002"]
           (mkDb [] [] 1 1)).
  - reflexivity.
  - unfold schemaHolds. simpl. repeat split; try constructor; intros ? [].
  - intros c [].
  - intros cid. simpl. lia.
Defined.

(** ** Display codes across categories *)

Lemma formatTokenNumber_head c n :
  formatTokenNumber (String c EmptyString) n
  = String c (String "-" (padStart 3 "0" (decimal n))).
Proof. reflexivity. Qed.

(** X12. Display codes identify their token's category and sequence
    number: two codes formatted for categories of the enumeration are
    equal only if the categories and the numbers are. *)
Theorem display_codes_distinct (a b : string) (n m : nat) :
  In a validServiceTypes -> In b validServiceTypes ->
  formatTokenNumber (getServicePrefix a) n
  = formatTokenNumber (getServicePrefix b) m ->
  a = b /\ n = m.
Proof.
  intros Ha Hb H. simpl in Ha, Hb.
  destruct Ha as [<-|[<-|[<-|[<-|[]]]]];
    destruct Hb as [<-|[<-|[<-|[<-|[]]]]];
    change (getServicePrefix "Parcel Drop-off") with "P" in H;
    change (getServicePrefix "Banking Services") with "B" in H;
    change (getServicePrefix "General Inquiry") with "G" in H;
    change (getServicePrefix "Document Verification") with "D" in H;
    try (split; [reflexivity|exact (formatTokenNumber_inj _ _ _ H)]);
    rewrite !formatTokenNumber_head in H; discriminate H.
Qed.

Lemma display_codes_distinct_witness :
  "Parcel Drop-off" = "Parcel Drop-off" /\ 7%nat = 7%nat.
Proof.
  apply (display_codes_distinct "Parcel Drop-off" "Parcel Drop-off" 7 7);
    [simpl; tauto|simpl; tauto|reflexivity].
Defined.

(** ** When generation gives up *)

(** X13. [generateToken] rejects exactly when the ten numbers that
    follow today's count for the category are all held already, with
    "Unable to generate unique token number" and the store unchanged;
    in every other case it resolves with the lowest of those ten numbers
    that is free, on a [WAITING] token. *)
Theorem generateToken_gives_up_after_ten
  (tz now : Z) (st : string) (db : Db) :
  let candidate k :=
    formatTokenNumber (getServicePrefix st) (todayCount tz now st db + k + 1) in
  ((exists e db', generateToken tz now st db = (Rejected e, db')) <->
     forall k, (k < 10)%nat -> taken (candidate k) db)
  /\ (forall e db', generateToken tz now st db = (Rejected e, db') ->
        e = JsError "Unable to generate unique token number" /\ db' = db)
  /\ (forall d db', generateToken tz now st db = (Resolved d, db') ->
        exists j, (j < 10)%nat
                  /\ d_tokenNumber d = candidate j
                  /\ ~ taken (candidate j) db
                  /\ (forall k, (k < j)%nat -> taken (candidate k) db)
                  /\ d_status d = WAITING
                  /\ taken (candidate j) db').
Proof.
  intros candidate. subst candidate. cbv beta.
  destruct (generateToken_outcome tz now st db)
    as [[j [d [Hj [Hfree [Hbelow [Hg [Hn [_ [Hw _]]]]]]]]]|[Hall Hg]];
    unfold maxAttempts in *.
  - rewrite Hg. split; [|split].
    + split; [intros [e [db' H]]; discriminate H|].
      intros Hall. exfalso. exact (Hfree (Hall j Hj)).
    + intros e db' H. discriminate H.
    + intros d' db' [= <- <-]. exists j. repeat (split; [assumption|]).
      unfold taken. simpl. intros Hnone. rewrite find_none_iff in Hnone.
      specialize (Hnone _ (in_elt (newToken db now _ st) (tokens db) [])).
      unfold hasTokenNumber, newToken in Hnone. simpl in Hnone.
      rewrite String.eqb_refl in Hnone. discriminate.
  - rewrite Hg. split; [|split].
    + split; [intros _; exact Hall|]. intros _. eexists _, _. reflexivity.
    + intros e db' [= <- <-]. now split.
    + intros d db' H. discriminate H.
Qed.

Lemma generateToken_gives_up_after_ten_witness :
  exists j, (j < 10)%nat
    /\ "P-001" = formatTokenNumber (getServicePrefix "Parcel Drop-off")
                   (todayCount 0 1000 "Parcel Drop-off" (mkDb [] [] 1 1) + j + 1).
Proof.
  destruct (proj2 (proj2 (generateToken_gives_up_after_ten 0 1000
                            "Parcel Drop-off" (mkDb [] [] 1 1)))
              _ _ eq_refl) as [j [Hj [Hn _]]].
  exists j. split; [exact Hj|exact Hn].
Defined.

(** ** The position handed out at creation *)

Lemma find_append {A} (p : A -> bool) l l' :
  find p (l ++ l') = match find p l with
                     | Some x => Some x
                     | None => find p l'
                     end.
Proof.
  induction l as [|a l IH]; simpl; [reflexivity|].
  destruct (p a); [reflexivity|exact IH].
Qed.

(** X14. The position returned with a new token is the live one: if
    every [WAITING] token of the category was created strictly before
    [now], then [calculateQueuePosition] of the new number, asked right
    after [generateToken] resolves, answers the [queuePosition] that
    [generateToken] returned, and that position is at least 1. *)
Theorem generateToken_position_is_live
  (tz now : Z) (st : string) (db db' : Db) (d : TokenWithDetails) :
  generateToken tz now st db = (Resolved d, db') ->
  (forall tk, In tk (tokens db) -> waitingOf st tk = true ->
     Token.createdAt tk < now) ->
  calculateQueuePosition (d_tokenNumber d) db'
  = (Resolved (d_queuePosition d), db')
  /\ 1 <= d_queuePosition d.
Proof.
  intros Hg Hbefore.
  destruct (numberLoop_spec (getServicePrefix st) (todayCount tz now st db)
              (maxAttempts - 1) 0 db) as [r [Hr Hcases]].
  rewrite (generateToken_unfold tz now st db r Hr) in Hg.
  destruct (maxAttempts <=? fst r)%nat; [discriminate|].
  destruct (existsb (hasTokenNumber (snd r)) (tokens db)) eqn:E; [discriminate|].
  injection Hg as <- <-. cbn [d_tokenNumber d_queuePosition].
  set (w := List.length (filter (waitingOf st) (tokens db))).
  assert (Hq : (if Z.of_nat w + 1 =? 0 then 1 else Z.of_nat w + 1)
               = Z.of_nat w + 1).
  { destruct (Z.eqb_spec (Z.of_nat w + 1) 0); [lia|reflexivity]. }
  rewrite Hq. split; [|lia].
  rewrite calculateQueuePosition_cases. cbn [tokens].
  assert (Hfind : find (hasTokenNumber (snd r))
                    (tokens db ++ [newToken db now (snd r) st])
                  = Some (newToken db now (snd r) st)).
  { rewrite find_append.
    assert (find (hasTokenNumber (snd r)) (tokens db) = None) as ->.
    { apply find_none_iff. intros x Hx.
      destruct (hasTokenNumber (snd r) x) eqn:Ex; [|reflexivity].
      assert (existsb (hasTokenNumber (snd r)) (tokens db) = true)
        by (apply existsb_exists; now exists x).
      congruence. }
    simpl. unfold hasTokenNumber, newToken. simpl.
    now rewrite String.eqb_refl. }
  rewrite Hfind. unfold isWaiting at 1. cbn [newToken Token.status TokenStatus_eqb].
  f_equal. f_equal. f_equal. rewrite filter_app, length_app.
  assert (Hself : filter (aheadOf (newToken db now (snd r) st))
                    [newToken db now (snd r) st] = []).
  { simpl. unfold aheadOf, newToken. simpl. rewrite Z.ltb_irrefl.
    now rewrite andb_false_r. }
  rewrite Hself. simpl. rewrite Nat.add_0_r. unfold w.
  apply (f_equal Z.of_nat). apply (f_equal (@List.length Token.t)).
  apply filter_ext_in. intros x Hx. unfold aheadOf, waitingOf, newToken.
  cbn [Token.serviceType Token.createdAt].
  destruct (isWaiting x && String.eqb (Token.serviceType x) st) eqn:Ew;
    [|reflexivity].
  specialize (Hbefore x Hx Ew). apply Z.ltb_lt in Hbefore. now rewrite Hbefore.
Qed.

Lemma generateToken_position_is_live_witness :
  calculateQueuePosition "P-004"
    (snd (generateToken 0 500 "Parcel Drop-off"
            (mkDb [completedParcel; laterParcel; latestParcel] [] 4 1)))
  = (Resolved 3,
     snd (generateToken 0 500 "Parcel Drop-off"
            (mkDb [completedParcel; laterParcel; latestParcel] [] 4 1))).
Proof.
  refine (proj1 (generateToken_position_is_live 0 500 "Parcel Drop-off"
            (mkDb [completedParcel; laterParcel; latestParcel] [] 4 1) _ _
            eq_refl _)).
  intros tk [<-|[<-|[<-|[]]]] H; simpl; try lia; discriminate H.
Defined.

(** ** Statistics by service type *)

Lemma countOf_bump st k groups :
  countOf st (bump k groups)
  = countOf st groups + (if String.eqb k st then 1 else 0).
Proof.
  induction groups as [|[k' n] rest IH]; cbn [bump].
  - unfold countOf. cbn -[Z.of_nat Z.add].
    destruct (String.eqb k st); reflexivity.
  - destruct (String.eqb_spec k k') as [->|Hne].
    + unfold countOf. cbn -[Z.of_nat Z.add].
      destruct (String.eqb k' st);
        [cbn [snd]; rewrite Nat2Z.inj_succ; lia|now rewrite Z.add_0_r].
    + unfold countOf in *. cbn -[Z.of_nat Z.add].
      destruct (String.eqb_spec k' st) as [->|Hne'].
      * destruct (String.eqb_spec k st) as [->|_]; [congruence|lia].
      * exact IH.
Qed.

Lemma countOf_groups st rows : forall groups,
  countOf st (fold_left (fun g tk => bump (Token.serviceType tk) g) rows groups)
  = countOf st groups + Z.of_nat (List.length (filter (ofType st) rows)).
Proof.
  induction rows as [|tk rows IH]; intros groups; simpl; [lia|].
  rewrite IH, countOf_bump. unfold ofType at 2.
  destruct (String.eqb (Token.serviceType tk) st); simpl; lia.
Qed.

Lemma filter_filter_length {A} (p q : A -> bool) l :
  List.length (filter p (filter q l))
  = List.length (filter (fun x => q x && p x) l).
Proof.
  induction l as [|a l IH]; simpl; [reflexivity|].
  destruct (q a); simpl; [destruct (p a); simpl; now rewrite IH|exact IH].
Qed.

Lemma groupCount st where_ db :
  exists groups,
    token_groupByServiceType where_ db = (Resolved groups, db)
    /\ countOf st groups = countTokens (fun tk => where_ tk && ofType st tk) db.
Proof.
  eexists. split; [reflexivity|].
  rewrite countOf_groups. unfold countOf at 1. simpl.
  unfold countTokens. now rewrite filter_filter_length.
Qed.

Lemma split_by_status (p : Token.t -> bool) l :
  List.length (filter p l)
  = (List.length (filter (fun tk => p tk && hasStatus WAITING tk) l)
     + List.length (filter (fun tk => p tk && hasStatus SERVING tk) l)
     + List.length (filter (fun tk => p tk && hasStatus COMPLETED tk) l))%nat.
Proof.
  unfold hasStatus. induction l as [|a l IH]; simpl; [reflexivity|].
  destruct (p a); simpl; [|exact IH].
  destruct (Token.status a); simpl; lia.
Qed.

(** X15. [getServiceStatistics] only reads and answers one row per
    category of the enumeration, in its order. In a row, [totalToday]
    counts the category's tokens created since local midnight,
    [completed] those of them that are [COMPLETED], [waiting] the
    category's [WAITING] tokens of any day, and [serving] is
    [max 0 (totalToday - waiting - completed)]. When every [WAITING]
    token of the store was created today, [serving] is the number of
    the category's [SERVING] tokens created today, and the three
    counts add up to [totalToday]. *)
Theorem getServiceStatistics_counts (tz now : Z) (db : Db) :
  exists stats,
    getServiceStatistics tz now db = (Resolved stats, db)
    /\ map s_serviceType stats = validServiceTypes
    /\ (forall s, In s stats ->
          let st := s_serviceType s in
          s_totalToday s
          = countTokens (fun tk => sinceToday tz now tk && ofType st tk) db
          /\ s_waiting s
             = countTokens (fun tk => isWaiting tk && ofType st tk) db
          /\ s_completed s
             = countTokens (fun tk => completedSinceToday tz now tk
                                      && ofType st tk) db
          /\ s_serving s
             = Z.max 0 (s_totalToday s - s_waiting s - s_completed s)
          /\ ((forall tk, In tk (tokens db) -> Token.status tk = WAITING ->
                 todayStart tz now <= Token.createdAt tk) ->
              s_serving s
              = countTokens (fun tk => sinceToday tz now tk && ofType st tk
                                       && hasStatus SERVING tk) db
              /\ s_totalToday s = s_waiting s + s_serving s + s_completed s)).
Proof.
  unfold getServiceStatistics, bind, ret.
  unfold token_groupByServiceType at 1 2 3.
  eexists. split; [reflexivity|]. split; [now rewrite map_map, map_id|].
  intros s Hs. apply in_map_iff in Hs. destruct Hs as [st [<- _]].
  cbn [s_serviceType s_totalToday s_waiting s_completed s_serving].
  destruct (groupCount st (sinceToday tz now) db) as [g1 [E1 C1]].
  destruct (groupCount st isWaiting db) as [g2 [E2 C2]].
  destruct (groupCount st (completedSinceToday tz now) db) as [g3 [E3 C3]].
  unfold token_groupByServiceType in E1, E2, E3.
  injection E1 as E1. injection E2 as E2. injection E3 as E3.
  rewrite E1, E2, E3, C1, C2, C3.
  repeat (split; [reflexivity|]).
  intros Htoday. unfold countTokens.
  pose proof (split_by_status (fun tk => sinceToday tz now tk && ofType st tk)
                (tokens db)) as Hsplit.
  assert (Hw : List.length (filter (fun tk => isWaiting tk && ofType st tk)
                              (tokens db))
               = List.length (filter (fun tk => sinceToday tz now tk
                                                && ofType st tk
                                                && hasStatus WAITING tk)
                                (tokens db))).
  { apply (f_equal (@List.length Token.t)). apply filter_ext_in. intros x Hx.
    unfold hasStatus. fold (isWaiting x).
    destruct (isWaiting x) eqn:Ew; [|now rewrite andb_false_r].
    apply isWaiting_iff in Ew. specialize (Htoday x Hx Ew).
    unfold sinceToday. apply Z.leb_le in Htoday. rewrite Htoday.
    simpl. now rewrite andb_true_r. }
  assert (Hc : List.length (filter (fun tk => completedSinceToday tz now tk
                                              && ofType st tk) (tokens db))
               = List.length (filter (fun tk => sinceToday tz now tk
                                                && ofType st tk
                                                && hasStatus COMPLETED tk)
                                (tokens db))).
  { apply (f_equal (@List.length Token.t)). apply filter_ext. intros x.
    unfold completedSinceToday, hasStatus.
    destruct (TokenStatus_eqb (Token.status x) COMPLETED),
             (sinceToday tz now x), (ofType st x); reflexivity. }
  cbv beta in Hsplit. rewrite Hw, Hc, Hsplit, !Nat2Z.inj_add. lia.
Qed.

Lemma getServiceStatistics_counts_witness :
  exists stats,
    getServiceStatistics 0 500 (mkDb [servingParcel; laterParcel] [counterOne] 3 2)
    = (Resolved stats, mkDb [servingParcel; laterParcel] [counterOne] 3 2)
    /\ map s_serviceType stats = validServiceTypes.
Proof.
  destruct (getServiceStatistics_counts 0 500
              (mkDb [servingParcel; laterParcel] [counterOne] 3 2))
    as [stats [H [Hm _]]].
  exists stats. split; assumption.
Defined.

(** ** Counters that come into service take the next token *)

Lemma no_waiting_no_next scan db :
  (forall l, Permutation (scan l) l) ->
  (forall tk, In tk (tokens db) -> Token.status tk <> WAITING) ->
  hd_error (orderByCreatedAt (filter isWaiting (scan (tokens db)))) = None.
Proof.
  intros Hscan Hnone.
  assert (filter isWaiting (scan (tokens db)) = []) as ->; [|reflexivity].
  destruct (filter isWaiting (scan (tokens db))) as [|x l] eqn:E; [reflexivity|].
  exfalso. assert (Hx : In x (filter isWaiting (scan (tokens db))))
    by (rewrite E; now left).
  apply filter_In in Hx. destruct Hx as [Hx Hw].
  apply isWaiting_iff in Hw.
  exact (Hnone x (Permutation_in x (Hscan _) Hx) Hw).
Qed.

Lemma givenCounter_nonzero cid : cid <> 0 -> givenCounter (Some cid) = Some cid.
Proof.
  intros H. unfold givenCounter.
  destruct (Z.eqb_spec cid 0); [contradiction|reflexivity].
Qed.

(** X16. [activateCounter] rejects an unknown id with record-not-found
    and changes nothing. For a known counter it sets the status to
    [ACTIVE] and then, for a non-zero id: if the counter has no
    [SERVING] token and a token is waiting, the token [getNextToken]
    answers is set to [SERVING] on this counter; if the counter is busy,
    or nobody waits, no token changes. *)
Theorem activateCounter_outcome
  (scan : list Token.t -> list Token.t) (now cid : Z) (db : Db) :
  (forall l, Permutation (scan l) l) ->
  (find (hasCounterId cid) (counters db) = None ->
     activateCounter scan now cid db = (Rejected RecordNotFound, db))
  /\ (forall c, find (hasCounterId cid) (counters db) = Some c ->
        exists db',
          activateCounter scan now cid db = (Resolved (setStatus ACTIVE c), db')
          /\ counters db' =
             updateWhere (hasCounterId cid) (setStatus ACTIVE) (counters db)
          /\ (cid <> 0 -> servingTokens cid db = [] ->
              forall tk, getNextToken scan db = (Resolved (Some tk), db) ->
                tokens db' =
                updateWhere (hasTokenNumber (Token.tokenNumber tk))
                  (setServing cid now) (tokens db))
          /\ (cid <> 0 -> servingTokens cid db <> [] -> tokens db' = tokens db)
          /\ ((forall tk, In tk (tokens db) -> Token.status tk <> WAITING) ->
              tokens db' = tokens db)).
Proof.
  intros Hscan. rewrite activateCounter_cases. split; [now intros ->|].
  intros c Hc. rewrite Hc. eexists. split; [reflexivity|].
  set (db1 := mkDb (tokens db)
                (updateWhere (hasCounterId cid) (setStatus ACTIVE) (counters db))
                (nextTokenId db) (nextCounterId db)).
  rewrite (tryAssign_cases scan now (Some cid) db1 Hscan).
  destruct (find_hasCounterId _ _ _ Hc) as [_ Hid].
  assert (Hfind : find (hasCounterId cid) (counters db1)
                  = Some (setStatus ACTIVE c)).
  { unfold db1. cbn [counters].
    rewrite find_updateWhere by (intros x; apply setStatus_key).
    now rewrite Hc. }
  assert (Hchoose : cid <> 0 ->
            chooseCounter (Some cid) db1 =
            if isAvailable db1 (setStatus ACTIVE c)
            then Some (setStatus ACTIVE c) else None).
  { intros Hnz. unfold chooseCounter.
    now rewrite (givenCounter_nonzero cid Hnz), Hfind. }
  assert (Havail : isAvailable db1 (setStatus ACTIVE c)
                   = match servingTokens cid db with [] => true | _ => false end).
  { unfold isAvailable. cbn [setStatus Counter.status Counter.id].
    rewrite Hid. reflexivity. }
  assert (Hcounters : forall o,
            counters (snd (match
                        hd_error (orderByCreatedAt
                                    (filter isWaiting (scan (tokens db1)))), o
                      with
                      | Some tk, Some c0 =>
                          (Resolved true,
                           mkDb (updateWhere
                                   (hasTokenNumber (Token.tokenNumber tk))
                                   (setServing (Counter.id c0) now) (tokens db1))
                                (counters db1) (nextTokenId db1)
                                (nextCounterId db1))
                      | _, _ => (Resolved false, db1)
                      end)) = counters db1).
  { intros o.
    destruct (hd_error (orderByCreatedAt (filter isWaiting (scan (tokens db1)))));
      destruct o; reflexivity. }
  split; [apply Hcounters|]. split; [|split].
  - intros Hnz Hfree tk Hnext. unfold getNextToken in Hnext.
    injection Hnext as Hnext. change (tokens db1) with (tokens db).
    rewrite Hnext, (Hchoose Hnz), Havail, Hfree. cbn [snd tokens].
    cbn [setStatus Counter.id]. now rewrite Hid.
  - intros Hnz Hbusy. rewrite (Hchoose Hnz), Havail.
    destruct (servingTokens cid db); [congruence|].
    destruct (hd_error (orderByCreatedAt (filter isWaiting (scan (tokens db1)))));
      reflexivity.
  - intros Hnone. change (tokens db1) with (tokens db).
    now rewrite (no_waiting_no_next scan db Hscan Hnone).
Qed.

Lemma activateCounter_outcome_witness :
  exists db',
    activateCounter (fun l => l) 500 1
      (mkDb [waitingParcel] [Counter.mk 1 1 INACTIVE 0] 2 2)
    = (Resolved counterOne, db')
    /\ tokens db' = [setServing 1 500 waitingParcel].
Proof.
  destruct (proj2 (activateCounter_outcome (fun l => l) 500 1
                     (mkDb [waitingParcel] [Counter.mk 1 1 INACTIVE 0] 2 2)
                     (fun l => Permutation_refl l))
              (Counter.mk 1 1 INACTIVE 0) eq_refl)
    as [db' [H [_ [Hserve _]]]].
  exists db'. split; [exact H|].
  apply (Hserve ltac:(lia) eq_refl waitingParcel eq_refl).
Defined.




(** ** The queue advances by one *)

Lemma updateWhere_no_hit {A} (p : A -> bool) (f : A -> A) l :
  (forall x, In x l -> p x = false) -> updateWhere p f l = l.
Proof.
  intros H. induction l as [|a l IH]; simpl; [reflexivity|].
  rewrite (H a (or_introl eq_refl)). f_equal. apply IH.
  intros x Hx. apply H. now right.
Qed.

Lemma filter_updateWhere_one (q : Token.t -> bool) code data l o :
  NoDup (map Token.tokenNumber l) ->
  (forall x, q (data x) = false) ->
  find (hasTokenNumber code) l = Some o ->
  (List.length (filter q (updateWhere (hasTokenNumber code) data l))
   + (if q o then 1 else 0)
   = List.length (filter q l))%nat.
Proof.
  intros Hnd Hq. induction l as [|a l IH]; simpl; intros Hf; [discriminate|].
  inversion Hnd as [|? ? Hn Hl]; subst.
  destruct (hasTokenNumber code a) eqn:E.
  - injection Hf as <-. rewrite Hq.
    rewrite updateWhere_no_hit.
    + destruct (q a); simpl; lia.
    + intros x Hx. destruct (hasTokenNumber code x) eqn:Ex; [|reflexivity].
      exfalso. apply Hn. unfold hasTokenNumber in E, Ex.
      apply String.eqb_eq in E, Ex. rewrite E, <- Ex. now apply in_map.
  - specialize (IH Hl Hf). destruct (q a); simpl; lia.
Qed.

Lemma position_advances_by data (code other : string) (db db' : Db) tk o :
  (forall x, hasTokenNumber code (data x) = hasTokenNumber code x) ->
  (forall x, isWaiting (data x) = false) ->
  NoDup (map Token.tokenNumber (tokens db)) ->
  find (hasTokenNumber code) (tokens db) = Some tk ->
  Token.status tk = WAITING ->
  find (hasTokenNumber other) (tokens db) = Some o ->
  other <> code ->
  tokens db' = updateWhere (hasTokenNumber other) data (tokens db) ->
  exists a b,
    calculateQueuePosition code db = (Resolved a, db)
    /\ calculateQueuePosition code db' = (Resolved b, db')
    /\ b = if aheadOf tk o then a - 1 else a.
Proof.
  intros Kcode Hw Hnd Htk Hst Ho Hne Ht.
  rewrite !calculateQueuePosition_cases. rewrite Ht.
  eexists _, _. split; [reflexivity|]. split; [reflexivity|].
  rewrite (find_updateWhere_other code other data (tokens db) Kcode), Htk.
  cbn [option_map].
  assert (Eo : hasTokenNumber other tk = false).
  { apply find_some in Htk. destruct Htk as [_ Hc].
    unfold hasTokenNumber in *. apply String.eqb_eq in Hc.
    apply String.eqb_neq. congruence. }
  rewrite Eo. rewrite (proj2 (isWaiting_iff tk) Hst).
  pose proof (filter_updateWhere_one (aheadOf tk) other data (tokens db) o Hnd)
    as Hone.
  assert (Hq : forall x, aheadOf tk (data x) = false)
    by (intros x; unfold aheadOf; now rewrite Hw).
  specialize (Hone Hq Ho). destruct (aheadOf tk o); lia.
Qed.

(** X18. The queue advances by exactly one. In a store whose token
    numbers are distinct, let a [WAITING] token hold the number [code]
    and let [other] be another token's number. After [other] is called
    to a counter ([assignTokenToCounter]) or completed
    ([completeToken]), the position [calculateQueuePosition] gives for
    [code] is one less than before when [other] was a [WAITING] token
    of the same category created strictly earlier, and is unchanged in
    every other case. *)
Theorem position_advances_by_one
  (now : Z) (other code : string) (cid : Z) (db : Db) (tk o : Token.t) :
  NoDup (map Token.tokenNumber (tokens db)) ->
  find (hasTokenNumber code) (tokens db) = Some tk ->
  Token.status tk = WAITING ->
  find (hasTokenNumber other) (tokens db) = Some o ->
  other <> code ->
  (forall r db', assignTokenToCounter now other cid db = (Resolved r, db') ->
     exists a b,
       calculateQueuePosition code db = (Resolved a, db)
       /\ calculateQueuePosition code db' = (Resolved b, db')
       /\ b = if aheadOf tk o then a - 1 else a)
  /\ (exists r db',
        completeToken now other db = (Resolved r, db')
        /\ exists a b,
             calculateQueuePosition code db = (Resolved a, db)
             /\ calculateQueuePosition code db' = (Resolved b, db')
             /\ b = if aheadOf tk o then a - 1 else a).
Proof.
  intros Hnd Htk Hst Ho Hne. split.
  - intros r db' H. rewrite assignTokenToCounter_cases, Ho in H.
    destruct (existsb (hasCounterId cid) (counters db)); [|discriminate].
    injection H as _ <-.
    apply (position_advances_by (setServing cid now) code other db _ tk o);
      try assumption; reflexivity.
  - rewrite completeToken_cases, Ho. eexists _, _. split; [reflexivity|].
    apply (position_advances_by (setCompleted now) code other db _ tk o);
      try assumption; reflexivity.
Qed.

Lemma position_advances_by_one_witness :
  exists r db',
    completeToken 500 "P-002"
      (mkDb [completedParcel; laterParcel; latestParcel] [counterOne] 4 2)
    = (Resolved r, db')
    /\ exists a b,
         calculateQueuePosition "P-003"
           (mkDb [completedParcel; laterParcel; latestParcel] [counterOne] 4 2)
         = (Resolved a,
            mkDb [completedParcel; laterParcel; latestParcel] [counterOne] 4 2)
         /\ calculateQueuePosition "P-003" db' = (Resolved b, db')
         /\ b = if aheadOf latestParcel laterParcel then a - 1 else a.
Proof.
  refine (proj2 (position_advances_by_one 500 "P-002" "P-003" 1
                   (mkDb [completedParcel; laterParcel; latestParcel]
                         [counterOne] 4 2)
                   latestParcel laterParcel _ eq_refl eq_refl eq_refl _)).
  - cbn [tokens map Token.tokenNumber completedParcel laterParcel latestParcel].
    repeat constructor; simpl; intros H;
      repeat (destruct H as [H|H]; [discriminate H|]); exact H.
  - discriminate.
Defined.
